(** * blockservice: local-then-remote block retrieval

    A shallow embedding of [blockservice/blockservice.go].

    The Go code talks to four collaborators that live outside the file: the
    block store, the exchange (and the fetchers derived from it), the
    provider and the verifcid allow-list.  Their calls are modelled as
    events of a call log.  Every event records the arguments of the call and
    the answer that came back, so the log is what a recording mock would
    hold after the operation.  The answers are given by an environment of
    response functions that may look at the whole history of calls made so
    far; a stateful store is such a function.

    [ctx] is threaded through every Go call but only matters through what
    the collaborators answer and through the two [select] statements of
    [getBlocks]; both are decided by the environment.  The goroutine of
    [getBlocks] is run on its own, from start to end; the channel a fetcher
    returns is the finite list of blocks it delivers before it is closed.
    Tracing spans and logger calls have no effect on the results and are
    left out. *)

From Stdlib Require Import List Bool Arith Lia.
Import ListNotations.

(** ** What the file imports from other packages *)

(** [cid.Cid], [blocks.Block] (of which only [Cid()] is used), Go's [error],
    [verifcid.Allowlist] with [verifcid.ValidateCid] and
    [verifcid.DefaultAllowlist], [ipld.IsNotFound] and [context.Context].
    [ValidateCid] answers [None] for Go's nil error. *)
Class Externals : Type := {
  Cid : Type;
  Block : Type;
  Err : Type;
  Allowlist : Type;
  Ctx : Type;
  BlockCid : Block -> Cid;
  ValidateCid : Allowlist -> Cid -> option Err;
  DefaultAllowlist : Allowlist;
  IsNotFound : Err -> bool
}.

Section BlockService.

Context {X : Externals}.

(** ** Handles *)

(** An [exchange.Interface] value.  The only thing the file asks of its
    dynamic type is whether it also is an [exchange.SessionExchange]. *)
Inductive Exchange : Type :=
| PlainExchange
| SessionExchange.

(** An [exchange.Fetcher]: the exchange itself, or the session fetcher that
    [NewSession] of a [SessionExchange] returned. *)
Inductive Fetcher : Type :=
| ExchangeFetcher (ex : Exchange)
| SessionFetcher (ex : Exchange).

(** A [provider.Provider] value. *)
Inductive Provider : Type :=
| TheProvider.

(** ** The call log *)

(** What the [select] on the fetcher's channel yields. *)
Inductive RecvResult : Type :=
| RecvBlock (b : Block)      (* v, ok := <-rblocks with ok *)
| RecvClosed                 (* v, ok := <-rblocks with !ok *)
| RecvCtxDone.               (* <-ctx.Done() *)

Inductive Event : Type :=
| CallValidateCid (c : Cid) (err : option Err)
| CallHas (c : Cid) (has : bool) (err : option Err)
| CallGet (c : Cid) (r : Err + Block)
| CallPut (b : Block) (err : option Err)
| CallDeleteBlock (c : Cid) (err : option Err)
| CallFetchFactory (r : option Fetcher)
| CallNewSession (ex : Exchange) (ctx : option Ctx)
| CallFetchGetBlock (f : Fetcher) (c : Cid) (r : Err + Block)
| CallFetchGetBlocks (f : Fetcher) (ks : list Cid) (r : Err + list Block)
| CallNotifyNewBlocks (bs : list Block) (err : option Err)
| CallProvide (c : Cid) (err : option Err)
| ChanRecv (r : RecvResult)
| ChanSend (b : Block) (delivered : bool).

(** The collaborators' answers, each as a function of the calls made so
    far.  [fetch_GetBlocks] answers with the blocks that the returned
    channel delivers before it is closed.  [recv_ctx_done] and
    [send_delivered] decide the two [select] statements: whether
    [ctx.Done()] wins over the receive, and whether the consumer takes the
    block before [ctx.Done()]. *)
Record Env : Type := {
  bs_Has : list Event -> Cid -> bool * option Err;
  bs_Get : list Event -> Cid -> Err + Block;
  bs_Put : list Event -> Block -> option Err;
  bs_DeleteBlock : list Event -> Cid -> option Err;
  fetch_GetBlock : list Event -> Fetcher -> Cid -> Err + Block;
  fetch_GetBlocks : list Event -> Fetcher -> list Cid -> Err + list Block;
  ex_NotifyNewBlocks : list Event -> list Block -> option Err;
  prov_Provide : list Event -> Cid -> option Err;
  recv_ctx_done : list Event -> bool;
  send_delivered : list Event -> Block -> bool
}.

(** ** The service and its sessions *)

Record blockService : Type := {
  allowlist : Allowlist;
  exchange : option Exchange;
  provider : option Provider;
  checkFirst : bool
}.

Definition Option : Type := blockService -> blockService.

Definition WriteThrough : Option :=
  fun bs => {| allowlist := allowlist bs; exchange := exchange bs;
               provider := provider bs; checkFirst := false |}.

Definition WithAllowlist (a : Allowlist) : Option :=
  fun bs => {| allowlist := a; exchange := exchange bs;
               provider := provider bs; checkFirst := checkFirst bs |}.

Definition WithProvider (prov : option Provider) : Option :=
  fun bs => {| allowlist := allowlist bs; exchange := exchange bs;
               provider := prov; checkFirst := checkFirst bs |}.

Definition New (ex : option Exchange) (opts : list Option) : blockService :=
  fold_left (fun service opt => opt service) opts
    {| allowlist := DefaultAllowlist; exchange := ex;
       provider := None; checkFirst := true |}.

(** A value of the interface type [BlockService], as [getBlock] and
    [getBlocks] receive it: its [Exchange()] and what the two type
    assertions [bs.(BoundedBlockService)] and [bs.(ProvidingBlockService)]
    give. *)
Record BlockService : Type := {
  bsExchange : option Exchange;
  asBounded : option Allowlist;
  asProviding : option (option Provider)
}.

(** [*blockService] implements both extended interfaces. *)
Definition asBlockService (s : blockService) : BlockService :=
  {| bsExchange := exchange s;
     asBounded := Some (allowlist s);
     asProviding := Some (provider s) |}.

Definition grabAllowlistFromBlockservice (bs : BlockService) : Allowlist :=
  match asBounded bs with
  | Some a => a
  | None => DefaultAllowlist
  end.

Definition grabProviderFromBlockservice (bs : BlockService)
  : option Provider :=
  match asProviding bs with
  | Some p => p
  | None => None
  end.

(** [createSession] is the [sync.Once]: [true] once [Do] has run. *)
Record Session : Type := {
  createSession : bool;
  bs : BlockService;
  ses : option Fetcher;
  sesctx : option Ctx
}.

Definition NewSession (ctx : Ctx) (b : BlockService) : Session :=
  {| createSession := false; bs := b; ses := None; sesctx := Some ctx |}.

(** ** Computations *)

(** A computation runs after the history [h] of earlier calls and with the
    one session of the run; it yields its value, the events it added, in
    order, and the session it leaves. *)
Definition M (A : Type) : Type :=
  list Event -> Session -> A * list Event * Session.

Definition ret {A} (a : A) : M A := fun _ s => (a, [], s).

Definition bind {A B} (m : M A) (k : A -> M B) : M B :=
  fun h s =>
    let '(a, e1, s1) := m h s in
    let '(b, e2, s2) := k a (h ++ e1) s1 in
    (b, e1 ++ e2, s2).

Notation "x <- m ;; k" := (bind m (fun x => k))
  (at level 61, m at next level, right associativity).
Notation "m ;;; k" := (bind m (fun _ => k))
  (at level 61, right associativity).

(** A call whose answer [answer h] is logged as [mk (answer h)]. *)
Definition call {R} (answer : list Event -> R) (mk : R -> Event) : M R :=
  fun h s => (answer h, [mk (answer h)], s).

Definition value {A} (r : A * list Event * Session) : A := fst (fst r).
Definition events {A} (r : A * list Event * Session) : list Event :=
  snd (fst r).
Definition session {A} (r : A * list Event * Session) : Session := snd r.

Variable env : Env.

Definition validate (a : Allowlist) (c : Cid) : M (option Err) :=
  call (fun _ => ValidateCid a c) (CallValidateCid c).

Definition Has (c : Cid) : M (bool * option Err) :=
  call (fun h => bs_Has env h c) (fun r => CallHas c (fst r) (snd r)).

Definition Get (c : Cid) : M (Err + Block) :=
  call (fun h => bs_Get env h c) (CallGet c).

Definition Put (b : Block) : M (option Err) :=
  call (fun h => bs_Put env h b) (CallPut b).

Definition storeDeleteBlock (c : Cid) : M (option Err) :=
  call (fun h => bs_DeleteBlock env h c) (CallDeleteBlock c).

Definition fetchGetBlock (f : Fetcher) (c : Cid) : M (Err + Block) :=
  call (fun h => fetch_GetBlock env h f c) (CallFetchGetBlock f c).

Definition fetchGetBlocks (f : Fetcher) (ks : list Cid)
  : M (Err + list Block) :=
  call (fun h => fetch_GetBlocks env h f ks) (CallFetchGetBlocks f ks).

Definition NotifyNewBlocks (blks : list Block) : M (option Err) :=
  call (fun h => ex_NotifyNewBlocks env h blks) (CallNotifyNewBlocks blks).

Definition Provide (c : Cid) : M (option Err) :=
  call (fun h => prov_Provide env h c) (CallProvide c).

(** [select { case out <- b: ; case <-ctx.Done(): return }] *)
Definition send (b : Block) : M bool :=
  call (fun h => send_delivered env h b) (ChanSend b).

(** Go's [err != nil]. *)
Definition notNil (err : option Err) : bool :=
  match err with
  | Some _ => true
  | None => false
  end.

(** ** AddBlock *)

Definition AddBlock (s : blockService) (o : Block) : M (option Err) :=
  let c := BlockCid o in
  err <- validate (allowlist s) c ;;
  match err with
  | Some e => ret (Some e)
  | None =>
    let write : M (option Err) :=
      err <- Put o ;;
      match err with
      | Some e => ret (Some e)
      | None =>
        match exchange s with
        | Some _ => NotifyNewBlocks [o] ;;; ret tt
        | None => ret tt
        end ;;;
        match provider s with
        | Some _ => Provide (BlockCid o) ;;; ret tt
        | None => ret tt
        end ;;;
        ret None
      end in
    if checkFirst s then
      r <- Has c ;;
      if fst r || notNil (snd r) then ret (snd r)
      else write
    else write
  end.

(** ** The fetch factories *)

(** [getBlock] and [getBlocks] are unexported and take the factory as a
    closure; the file passes exactly two: the method value
    [s.getExchangeFetcher] of a service and [s.grabSession] of a session. *)
Inductive FetchFactory : Type :=
| getExchangeFetcher (s : blockService)
| grabSession.

(** [s.createSession.Do(func() { ... })] followed by [return s.ses]; the
    deferred [s.sesctx = nil] runs on every way out of the function. *)
Definition runGrabSession : M (option Fetcher) :=
  fun h s =>
    if createSession s then (ses s, [], s)
    else
      match bsExchange (bs s) with
      | None =>
        (ses s, [],
         {| createSession := true; bs := bs s; ses := ses s;
            sesctx := None |})
      | Some ex =>
        match ex with
        | PlainExchange =>
          (Some (ExchangeFetcher ex), [],
           {| createSession := true; bs := bs s;
              ses := Some (ExchangeFetcher ex); sesctx := None |})
        | SessionExchange =>
          (Some (SessionFetcher ex), [CallNewSession ex (sesctx s)],
           {| createSession := true; bs := bs s;
              ses := Some (SessionFetcher ex); sesctx := None |})
        end
      end.

(** [fetchFactory()]; the invocation itself is logged with its result. *)
Definition callFetchFactory (fetchFactory : FetchFactory)
  : M (option Fetcher) :=
  fetch <- match fetchFactory with
           | getExchangeFetcher s =>
             ret (match exchange s with
                  | Some ex => Some (ExchangeFetcher ex)
                  | None => None
                  end)
           | grabSession => runGrabSession
           end ;;
  call (fun _ => fetch) CallFetchFactory.

(** ** getBlock *)

Definition getBlock (c : Cid) (b : BlockService) (fetchFactory : FetchFactory)
  : M (Err + Block) :=
  err <- validate (grabAllowlistFromBlockservice b) c ;;
  match err with
  | Some e => ret (inl e)
  | None =>
    r <- Get c ;;
    match r with
    | inr block => ret (inr block)
    | inl err =>
      if IsNotFound err then
        fetch <- callFetchFactory fetchFactory ;;
        match fetch with
        | None => ret (inl err)
        | Some f =>
          r <- fetchGetBlock f c ;;
          match r with
          | inl e => ret (inl e)
          | inr blk =>
            err <- Put blk ;;
            match err with
            | Some e => ret (inl e)
            | None =>
              err <- match bsExchange b with
                     | Some _ => NotifyNewBlocks [blk]
                     | None => ret None
                     end ;;
              match err with
              | Some e => ret (inl e)
              | None =>
                err <- match grabProviderFromBlockservice b with
                       | Some _ => Provide (BlockCid blk)
                       | None => ret None
                       end ;;
                match err with
                | Some e => ret (inl e)
                | None => ret (inr blk)
                end
              end
            end
          end
        end
      else ret (inl err)
    end
  end.

Definition GetBlock (s : blockService) (c : Cid) : M (Err + Block) :=
  getBlock c (asBlockService s) (getExchangeFetcher s).

Definition Session_GetBlock (c : Cid) : M (Err + Block) :=
  fun h s => getBlock c (bs s) grabSession h s.

(** ** getBlocks *)

(** The body of the goroutine.  The blocks it writes to [out] are the
    [ChanSend _ true] events; [defer close(out)] runs however it ends. *)

(** [for lastAllValidIndex, c = range ks { if err != nil { break } }]:
    the range assigns the index [i] to the outer variable at the start of
    every iteration, so after a range that ran to its end the variable
    holds the index of the last element (and its initial 0 for an empty
    [ks]). *)
Fixpoint firstScan (a : Allowlist) (ks : list Cid) (i : nat)
    (lastAllValidIndex : nat) : M nat :=
  match ks with
  | [] => ret lastAllValidIndex
  | c :: rest =>
    err <- validate a c ;;
    match err with
    | Some _ => ret i
    | None => firstScan a rest (S i) i
    end
  end.

(** [for _, c := range ks[lastAllValidIndex:] { ... ks2 = append(ks2, c) }] *)
Fixpoint secondPass (a : Allowlist) (rest : list Cid) (ks2 : list Cid)
  : M (list Cid) :=
  match rest with
  | [] => ret ks2
  | c :: rest' =>
    err <- validate a c ;;
    match err with
    | None => secondPass a rest' (ks2 ++ [c])
    | Some _ => secondPass a rest' ks2
    end
  end.

Definition validationPhase (a : Allowlist) (ks : list Cid) : M (list Cid) :=
  lastAllValidIndex <- firstScan a ks 0 0 ;;
  if negb (lastAllValidIndex =? length ks) then
    let ks2 := firstn lastAllValidIndex ks in
    secondPass a (skipn lastAllValidIndex ks) ks2
  else ret ks.

(** [for _, c := range ks { hit, err := bs.Get(ctx, c) ... }]; [None] when
    the send lost against [ctx.Done()] and the goroutine returned. *)
Fixpoint localPhase (ks : list Cid) (misses : list Cid)
  : M (option (list Cid)) :=
  match ks with
  | [] => ret (Some misses)
  | c :: rest =>
    r <- Get c ;;
    match r with
    | inl _ => localPhase rest (misses ++ [c])
    | inr hit =>
      delivered <- send hit ;;
      if delivered then localPhase rest misses else ret None
    end
  end.

(** The [for { select ... }] loop over the fetcher's channel.  [rblocks] is
    what the channel still delivers before the fetcher closes it; at every
    receive the environment may let [ctx.Done()] win instead. *)
Fixpoint networkPhase (ex : option Exchange) (prov : option Provider)
    (rblocks : list Block) : M unit :=
  fun h s =>
    if recv_ctx_done env h then (tt, [ChanRecv RecvCtxDone], s)
    else
      match rblocks with
      | [] => (tt, [ChanRecv RecvClosed], s)
      | b :: rest =>
        (call (fun _ => RecvBlock b) ChanRecv ;;;
         err <- Put b ;;
         match err with
         | Some _ => ret tt
         | None =>
           err <- match ex with
                  | Some _ => NotifyNewBlocks [b]
                  | None => ret None
                  end ;;
           match err with
           | Some _ => ret tt
           | None =>
             err <- match prov with
                    | Some _ => Provide (BlockCid b)
                    | None => ret None
                    end ;;
             match err with
             | Some _ => ret tt
             | None =>
               delivered <- send b ;;
               if delivered then networkPhase ex prov rest else ret tt
             end
           end
         end) h s
      end.

Definition getBlocks (ks : list Cid) (blockservice : BlockService)
    (fetchFactory : FetchFactory) : M unit :=
  let allowlist := grabAllowlistFromBlockservice blockservice in
  ks <- validationPhase allowlist ks ;;
  local <- localPhase ks [] ;;
  match local with
  | None => ret tt
  | Some misses =>
    fetch <- callFetchFactory fetchFactory ;;
    match misses, fetch with
    | [], _ => ret tt
    | _ :: _, None => ret tt
    | _ :: _, Some f =>
      r <- fetchGetBlocks f misses ;;
      match r with
      | inl _ => ret tt
      | inr rblocks =>
        networkPhase (bsExchange blockservice)
          (grabProviderFromBlockservice blockservice) rblocks
      end
    end
  end.

Definition GetBlocks (s : blockService) (ks : list Cid) : M unit :=
  getBlocks ks (asBlockService s) (getExchangeFetcher s).

Definition Session_GetBlocks (ks : list Cid) : M unit :=
  fun h s => getBlocks ks (bs s) grabSession h s.

(** ** DeleteBlock *)

Definition DeleteBlock (s : blockService) (c : Cid) : M (option Err) :=
  storeDeleteBlock c.

End BlockService.

(** ** Reading a call log *)

Section Logs.

Context {X : Externals}.

Definition valid (a : Allowlist) (c : Cid) : bool :=
  negb (notNil (ValidateCid a c)).

Definition isPut (e : Event) : bool :=
  match e with CallPut _ _ => true | _ => false end.

Definition isNotify (e : Event) : bool :=
  match e with CallNotifyNewBlocks _ _ => true | _ => false end.

Definition isProvide (e : Event) : bool :=
  match e with CallProvide _ _ => true | _ => false end.

(** A write-back step that came back with an error. *)
Definition isPutFailure (e : Event) : bool :=
  match e with CallPut _ (Some _) => true | _ => false end.

Definition isAnnounceFailure (e : Event) : bool :=
  match e with
  | CallNotifyNewBlocks _ (Some _) => true
  | CallProvide _ (Some _) => true
  | _ => false
  end.

Definition isWriteBackFailure (e : Event) : bool :=
  isPutFailure e || isAnnounceFailure e.

(** A send on [out] that lost against [ctx.Done()]. *)
Definition isCancelledSend (e : Event) : bool :=
  match e with ChanSend _ false => true | _ => false end.

Definition cancelled (evs : list Event) : bool := existsb isCancelledSend evs.

(** The identifiers handed to [ValidateCid], in call order. *)
Definition validated (evs : list Event) : list Cid :=
  flat_map (fun e => match e with CallValidateCid c _ => [c] | _ => [] end)
    evs.

(** The identifiers handed to the store's [Get], in call order. *)
Definition queried (evs : list Event) : list Cid :=
  flat_map (fun e => match e with CallGet c _ => [c] | _ => [] end) evs.

(** The identifiers whose [Get] came back with an error. *)
Definition failedGets (evs : list Event) : list Cid :=
  flat_map (fun e => match e with CallGet c (inl _) => [c] | _ => [] end)
    evs.

(** The blocks the store's [Get] returned. *)
Definition hits (evs : list Event) : list Block :=
  flat_map (fun e => match e with CallGet _ (inr b) => [b] | _ => [] end)
    evs.

(** The blocks delivered on [out]. *)
Definition emitted (evs : list Event) : list Block :=
  flat_map (fun e => match e with ChanSend b true => [b] | _ => [] end) evs.

(** The blocks taken from the fetcher's channel. *)
Definition received (evs : list Event) : list Block :=
  flat_map (fun e => match e with ChanRecv (RecvBlock b) => [b] | _ => [] end)
    evs.

(** The block a failed notification or advertisement was about. *)
Definition concerns (e : Event) (b : Block) : Prop :=
  match e with
  | CallNotifyNewBlocks blks _ => blks = [b]
  | CallProvide c _ => c = BlockCid b
  | _ => False
  end.

(** The log of validating the identifiers of [ks] one after the other. *)
Definition logValidate (a : Allowlist) (ks : list Cid) : list Event :=
  map (fun c => CallValidateCid c (ValidateCid a c)) ks.

(** The kinds of events each phase of [getBlocks] adds. *)
Definition isValidateEv (e : Event) : bool :=
  match e with CallValidateCid _ _ => true | _ => false end.

Definition isLocalEv (e : Event) : bool :=
  match e with CallGet _ _ | ChanSend _ _ => true | _ => false end.

Definition isFactoryEv (e : Event) : bool :=
  match e with
  | CallFetchFactory _ | CallNewSession _ _ | CallFetchGetBlocks _ _ _ => true
  | _ => false
  end.

Definition isNetworkEv (e : Event) : bool :=
  match e with
  | ChanRecv _ | CallPut _ _ | CallNotifyNewBlocks _ _ | CallProvide _ _
  | ChanSend _ _ => true
  | _ => false
  end.

(** The accepted announcements of one write-back. *)
Definition notified (ex : option Exchange) (b : Block) : list Event :=
  match ex with
  | Some _ => [CallNotifyNewBlocks [b] None]
  | None => []
  end.

Definition provided (prov : option Provider) (b : Block) : list Event :=
  match prov with
  | Some _ => [CallProvide (BlockCid b) None]
  | None => []
  end.

(** The shapes a log of the network loop can have: it ends on a closed
    channel, a cancellation or a failed write-back step, after any number
    of complete write-backs. *)
Inductive NetRun (ex : option Exchange) (prov : option Provider)
  : list Event -> Prop :=
| NetCtxDone : NetRun ex prov [ChanRecv RecvCtxDone]
| NetClosed : NetRun ex prov [ChanRecv RecvClosed]
| NetPutFailed b e :
    NetRun ex prov [ChanRecv (RecvBlock b); CallPut b (Some e)]
| NetNotifyFailed b e :
    NetRun ex prov
      [ChanRecv (RecvBlock b); CallPut b None;
       CallNotifyNewBlocks [b] (Some e)]
| NetProvideFailed b e :
    NetRun ex prov
      ([ChanRecv (RecvBlock b); CallPut b None] ++ notified ex b
         ++ [CallProvide (BlockCid b) (Some e)])
| NetSendCancelled b :
    NetRun ex prov
      ([ChanRecv (RecvBlock b); CallPut b None] ++ notified ex b
         ++ provided prov b ++ [ChanSend b false])
| NetEmitted b evs :
    NetRun ex prov evs ->
    NetRun ex prov
      ([ChanRecv (RecvBlock b); CallPut b None] ++ notified ex b
         ++ provided prov b ++ [ChanSend b true] ++ evs).

(** Two [AddBlock] calls with the same block, one after the other. *)
Definition addTwice (env : Env) (s : blockService) (o : Block)
  : M (option Err * option Err) :=
  bind (AddBlock env s o) (fun r1 =>
  bind (AddBlock env s o) (fun r2 => ret (r1, r2))).

End Logs.

(** ** A concrete instance: numbered blocks and an in-memory store *)

Module Demo.

Inductive DemoErr : Type :=
| ErrNotFound
| ErrRejected
| ErrIO.

(** Identifiers are numbers, a block is its identifier and a payload, and
    an allow-list says which identifiers carry an acceptable hash. *)
#[export] Instance demoX : Externals := {|
  Cid := nat;
  Block := nat * nat;
  Err := DemoErr;
  Allowlist := nat -> bool;
  Ctx := unit;
  BlockCid := fst;
  ValidateCid := fun a c => if a c then None else Some ErrRejected;
  DefaultAllowlist := fun c => c <? 100;
  IsNotFound := fun e => match e with ErrNotFound => true | _ => false end
|}.

(** The content of the store after the calls of [h], starting from [init]. *)
Definition stored (init : list (nat * nat)) (h : list Event)
  : list (nat * nat) :=
  fold_left
    (fun st e =>
       match e with
       | CallPut b None => b :: st
       | CallDeleteBlock c None => filter (fun b => negb (fst b =? c)) st
       | _ => st
       end) h init.

Definition lookup (st : list (nat * nat)) (c : nat) : option (nat * nat) :=
  find (fun b => fst b =? c) st.

(** A store holding [init], an exchange that can deliver [remote], and
    nothing that fails or is cancelled. *)
Definition memEnv (init remote : list (nat * nat)) : Env := {|
  bs_Has := fun h c =>
    (match lookup (stored init h) c with Some _ => true | None => false end,
     None);
  bs_Get := fun h c =>
    match lookup (stored init h) c with
    | Some b => inr b
    | None => inl ErrNotFound
    end;
  bs_Put := fun _ _ => None;
  bs_DeleteBlock := fun _ _ => None;
  fetch_GetBlock := fun _ _ c =>
    match lookup remote c with
    | Some b => inr b
    | None => inl ErrNotFound
    end;
  fetch_GetBlocks := fun _ _ ks =>
    inr (flat_map (fun c => match lookup remote c with
                            | Some b => [b]
                            | None => []
                            end) ks);
  ex_NotifyNewBlocks := fun _ _ => None;
  prov_Provide := fun _ _ => None;
  recv_ctx_done := fun _ => false;
  send_delivered := fun _ _ => true
|}.

(** The same, with a store whose [Get] of [bad] fails with an I/O error. *)
Definition brokenGet (bad : nat) (e : Env) : Env := {|
  bs_Has := bs_Has e;
  bs_Get := fun h c => if c =? bad then inl ErrIO else bs_Get e h c;
  bs_Put := bs_Put e;
  bs_DeleteBlock := bs_DeleteBlock e;
  fetch_GetBlock := fetch_GetBlock e;
  fetch_GetBlocks := fetch_GetBlocks e;
  ex_NotifyNewBlocks := ex_NotifyNewBlocks e;
  prov_Provide := prov_Provide e;
  recv_ctx_done := recv_ctx_done e;
  send_delivered := send_delivered e
|}.

(** With a store whose [Put] of the block numbered [bad] fails. *)
Definition brokenPut (bad : nat) (e : Env) : Env := {|
  bs_Has := bs_Has e;
  bs_Get := bs_Get e;
  bs_Put := fun h b => if fst b =? bad then Some ErrIO else bs_Put e h b;
  bs_DeleteBlock := bs_DeleteBlock e;
  fetch_GetBlock := fetch_GetBlock e;
  fetch_GetBlocks := fetch_GetBlocks e;
  ex_NotifyNewBlocks := ex_NotifyNewBlocks e;
  prov_Provide := prov_Provide e;
  recv_ctx_done := recv_ctx_done e;
  send_delivered := send_delivered e
|}.

(** With an exchange that refuses the notification about block [bad]. *)
Definition brokenNotify (bad : nat) (e : Env) : Env := {|
  bs_Has := bs_Has e;
  bs_Get := bs_Get e;
  bs_Put := bs_Put e;
  bs_DeleteBlock := bs_DeleteBlock e;
  fetch_GetBlock := fetch_GetBlock e;
  fetch_GetBlocks := fetch_GetBlocks e;
  ex_NotifyNewBlocks := fun h blks =>
    if existsb (fun b => fst b =? bad) blks then Some ErrIO
    else ex_NotifyNewBlocks e h blks;
  prov_Provide := prov_Provide e;
  recv_ctx_done := recv_ctx_done e;
  send_delivered := send_delivered e
|}.

(** With a provider that fails to advertise [bad]. *)
Definition brokenProvide (bad : nat) (e : Env) : Env := {|
  bs_Has := bs_Has e;
  bs_Get := bs_Get e;
  bs_Put := bs_Put e;
  bs_DeleteBlock := bs_DeleteBlock e;
  fetch_GetBlock := fetch_GetBlock e;
  fetch_GetBlocks := fetch_GetBlocks e;
  ex_NotifyNewBlocks := ex_NotifyNewBlocks e;
  prov_Provide := fun h c => if c =? bad then Some ErrIO else prov_Provide e h c;
  recv_ctx_done := recv_ctx_done e;
  send_delivered := send_delivered e
|}.

(** Services as [New] builds them. *)
Definition online : blockService := New (Some SessionExchange) [].
Definition offline : blockService := New None [].
Definition providing : blockService :=
  New (Some SessionExchange) [WithProvider (Some TheProvider)].

Definition freshSession (s : blockService) : Session :=
  NewSession tt (asBlockService s).

End Demo.

(** ** More of the file: sessions over several calls, the batch write path *)

Section MoreLogs.

Context {X : Externals}.

(** The error a call came back with, if any. *)
Definition errorOf (e : Event) : option Err :=
  match e with
  | CallValidateCid _ err => err
  | CallHas _ _ err => err
  | CallGet _ (inl e) => Some e
  | CallPut _ err => err
  | CallDeleteBlock _ err => err
  | CallFetchGetBlock _ _ (inl e) => Some e
  | CallFetchGetBlocks _ _ (inl e) => Some e
  | CallNotifyNewBlocks _ err => err
  | CallProvide _ err => err
  | _ => None
  end.

Definition isHas (e : Event) : bool :=
  match e with CallHas _ _ _ => true | _ => false end.

Definition isNewSession (e : Event) : bool :=
  match e with CallNewSession _ _ => true | _ => false end.

Definition isFetchGetBlocks (e : Event) : bool :=
  match e with CallFetchGetBlocks _ _ _ => true | _ => false end.

Definition isFactoryCall (e : Event) : bool :=
  match e with CallFetchFactory _ => true | _ => false end.

(** What the fetch factory returned, invocation by invocation. *)
Definition fetchers (evs : list Event) : list (option Fetcher) :=
  flat_map (fun e => match e with CallFetchFactory r => [r] | _ => [] end)
    evs.

(** The blocks handed to the store's [Put] that it accepted. *)
Definition persisted (evs : list Event) : list Block :=
  flat_map (fun e => match e with CallPut b None => [b] | _ => [] end) evs.

(** A call on a session. *)
Inductive SessionCall : Type :=
| SessionGetBlock (c : Cid)
| SessionGetBlocks (ks : list Cid).

(** The calls of [calls] made on the session of the run, one after the
    other. *)
Fixpoint runSession (env : Env) (calls : list SessionCall) : M unit :=
  match calls with
  | [] => ret tt
  | SessionGetBlock c :: rest =>
    bind (Session_GetBlock env c) (fun _ => runSession env rest)
  | SessionGetBlocks ks :: rest =>
    bind (Session_GetBlocks env ks) (fun _ => runSession env rest)
  end.

(** The fetcher that [grabSession] sets up for a session over [b]. *)
Definition sessionFetcher (b : BlockService) : option Fetcher :=
  match bsExchange b with
  | None => None
  | Some PlainExchange => Some (ExchangeFetcher PlainExchange)
  | Some SessionExchange => Some (SessionFetcher SessionExchange)
  end.

(** The [NewSession] calls that setting up a session over [b], created
    with [ctx], makes. *)
Definition sessionSetup (ctx : Ctx) (b : BlockService) : list Event :=
  match bsExchange b with
  | Some SessionExchange => [CallNewSession SessionExchange (Some ctx)]
  | _ => []
  end.

(** The states of a session that [NewSession ctx b] created: as created,
    or set up. *)
Definition sessionState (ctx : Ctx) (b : BlockService) (sn : Session)
  : Prop :=
  bs sn = b /\
  ((createSession sn = false /\ ses sn = None /\ sesctx sn = Some ctx) \/
   (createSession sn = true /\ ses sn = sessionFetcher b /\
    sesctx sn = None)).

(** An operation invokes the fetch factory once at most. *)
Definition oneFactoryCall (ff : FetchFactory) (sn : Session)
    (evs : list Event) (sn' : Session) : Prop :=
  (sn' = sn /\ fetchers evs = [] /\ filter isNewSession evs = []) \/
  (exists h',
      sn' = session (callFetchFactory ff h' sn) /\
      fetchers evs = [value (callFetchFactory ff h' sn)] /\
      filter isNewSession evs
      = filter isNewSession (events (callFetchFactory ff h' sn))).

(** The options that the package provides. *)
Inductive ProvidedOption : Option -> Prop :=
| IsWriteThrough : ProvidedOption WriteThrough
| IsWithAllowlist a : ProvidedOption (WithAllowlist a)
| IsWithProvider p : ProvidedOption (WithProvider p).

End MoreLogs.

(** ** AddBlocks *)

(** The batch write path makes one call that no other operation makes,
    [PutMany].  Its log is the log of the other operations extended by
    that call, and the answers again are functions of the calls made so
    far. *)

Section Batch.

Context {X : Externals}.

Inductive Call : Type :=
| Basic (e : Event)
| CallPutMany (blks : list Block) (err : option Err).

Record BatchEnv : Type := {
  many_Has : list Call -> Cid -> bool * option Err;
  many_PutMany : list Call -> list Block -> option Err;
  many_NotifyNewBlocks : list Call -> list Block -> option Err;
  many_Provide : list Call -> Cid -> option Err
}.

(** A computation of the batch path: after the history [h] it yields its
    value and the calls it added. *)
Definition W (A : Type) : Type := list Call -> A * list Call.

Definition retW {A} (a : A) : W A := fun _ => (a, []).

Definition bindW {A B} (m : W A) (k : A -> W B) : W B :=
  fun h =>
    let '(a, e1) := m h in
    let '(b, e2) := k a (h ++ e1) in
    (b, e1 ++ e2).

Notation "x <- m ;; k" := (bindW m (fun x => k))
  (at level 61, m at next level, right associativity).
Notation "m ;;; k" := (bindW m (fun _ => k))
  (at level 61, right associativity).

Definition callW {R} (answer : list Call -> R) (mk : R -> Call) : W R :=
  fun h => (answer h, [mk (answer h)]).

Variable env : BatchEnv.

(** [for _, b := range bs { err := verifcid.ValidateCid(...) ... }] *)
Fixpoint validateAll (a : Allowlist) (blks : list Block) : W (option Err) :=
  match blks with
  | [] => retW None
  | b :: rest =>
    err <- callW (fun _ => ValidateCid a (BlockCid b))
             (fun r => Basic (CallValidateCid (BlockCid b) r)) ;;
    match err with
    | Some e => retW (Some e)
    | None => validateAll a rest
    end
  end.

(** [for _, b := range bs { has, err := s.blockstore.Has(...) ... }] *)
Fixpoint filterAbsent (blks : list Block) (toput : list Block)
  : W (Err + list Block) :=
  match blks with
  | [] => retW (inr toput)
  | b :: rest =>
    r <- callW (fun h => many_Has env h (BlockCid b))
           (fun r => Basic (CallHas (BlockCid b) (fst r) (snd r))) ;;
    match snd r with
    | Some e => retW (inl e)
    | None =>
      if negb (fst r) then filterAbsent rest (toput ++ [b])
      else filterAbsent rest toput
    end
  end.

(** [for _, o := range toput { s.provider.Provide(o.Cid()) }] *)
Fixpoint provideAll (toput : list Block) : W unit :=
  match toput with
  | [] => retW tt
  | o :: rest =>
    callW (fun h => many_Provide env h (BlockCid o))
      (fun r => Basic (CallProvide (BlockCid o) r)) ;;;
    provideAll rest
  end.

(** From [if len(toput) == 0] to the end of [AddBlocks]. *)
Definition putAndAnnounce (s : blockService) (toput : list Block)
  : W (option Err) :=
  match toput with
  | [] => retW None
  | _ :: _ =>
    err <- callW (fun h => many_PutMany env h toput) (CallPutMany toput) ;;
    match err with
    | Some e => retW (Some e)
    | None =>
      match exchange s with
      | Some _ =>
        callW (fun h => many_NotifyNewBlocks env h toput)
          (fun r => Basic (CallNotifyNewBlocks toput r)) ;;; retW tt
      | None => retW tt
      end ;;;
      match provider s with
      | Some _ => provideAll toput
      | None => retW tt
      end ;;;
      retW None
    end
  end.

Definition AddBlocks (s : blockService) (blks : list Block)
  : W (option Err) :=
  err <- validateAll (allowlist s) blks ;;
  match err with
  | Some e => retW (Some e)
  | None =>
    r <- (if checkFirst s then filterAbsent blks [] else retW (inr blks)) ;;
    match r with
    | inl e => retW (Some e)
    | inr toput => putAndAnnounce s toput
    end
  end.

End Batch.

Section BatchLogs.

Context {X : Externals}.

(** The calls of a batch log that the other operations make too. *)
Definition basics (l : list Call) : list Event :=
  flat_map (fun c => match c with Basic e => [e] | CallPutMany _ _ => [] end)
    l.

(** The arguments of the [PutMany] calls. *)
Definition putManys (l : list Call) : list (list Block) :=
  flat_map
    (fun c => match c with CallPutMany blks _ => [blks] | Basic _ => [] end)
    l.

(** The identifiers the store's [Has] was asked about. *)
Definition asked (evs : list Event) : list Cid :=
  flat_map (fun e => match e with CallHas c _ _ => [c] | _ => [] end) evs.

(** The identifiers the store reported as absent, without error. *)
Definition reportedAbsent (evs : list Event) : list Cid :=
  flat_map (fun e => match e with CallHas c false None => [c] | _ => [] end)
    evs.

(** The arguments of the notifications. *)
Definition notifications (evs : list Event) : list (list Block) :=
  flat_map
    (fun e => match e with CallNotifyNewBlocks blks _ => [blks] | _ => [] end)
    evs.

(** The identifiers advertised. *)
Definition advertised (evs : list Event) : list Cid :=
  flat_map (fun e => match e with CallProvide c _ => [c] | _ => [] end) evs.

(** The kinds of calls each part of [AddBlocks] adds. *)
Definition isValidateCall (c : Call) : bool :=
  match c with Basic (CallValidateCid _ _) => true | _ => false end.

Definition isHasCall (c : Call) : bool :=
  match c with Basic (CallHas _ _ _) => true | _ => false end.

Definition isAnnounceCall (c : Call) : bool :=
  match c with
  | Basic (CallNotifyNewBlocks _ _) | Basic (CallProvide _ _) => true
  | _ => false
  end.

(** The error a call of the batch log came back with. *)
Definition callError (c : Call) : option Err :=
  match c with
  | Basic e => errorOf e
  | CallPutMany _ err => err
  end.

End BatchLogs.

(** ** More of the concrete instance *)

Module DemoMore.

Import Demo.

(** With an exchange whose [GetBlocks] cannot start. *)
Definition brokenFetch (e : Env) : Env := {|
  bs_Has := bs_Has e;
  bs_Get := bs_Get e;
  bs_Put := bs_Put e;
  bs_DeleteBlock := bs_DeleteBlock e;
  fetch_GetBlock := fetch_GetBlock e;
  fetch_GetBlocks := fun _ _ _ => inl ErrIO;
  ex_NotifyNewBlocks := ex_NotifyNewBlocks e;
  prov_Provide := prov_Provide e;
  recv_ctx_done := recv_ctx_done e;
  send_delivered := send_delivered e
|}.

(** The content of the store after the calls of [h], starting from
    [init]. *)
Definition storedAfter (init : list (nat * nat)) (h : list Call)
  : list (nat * nat) :=
  init ++ flat_map (fun c => match c with
                             | CallPutMany blks None => blks
                             | _ => []
                             end) h.

(** A store holding [init] that fails to answer [Has] for the identifiers
    of [badHas] and refuses a [PutMany] with a block of [badPut]; an
    exchange that refuses every notification if [badNotify]; a provider
    that fails on the identifiers of [badProvide]. *)
Definition batchEnv (init : list (nat * nat)) (badHas badPut : nat -> bool)
    (badNotify : bool) (badProvide : nat -> bool) : BatchEnv := {|
  many_Has := fun h c =>
    (existsb (fun b => fst b =? c) (storedAfter init h),
     if badHas c then Some ErrIO else None);
  many_PutMany := fun _ blks =>
    if existsb (fun b => badPut (fst b)) blks then Some ErrIO else None;
  many_NotifyNewBlocks := fun _ _ => if badNotify then Some ErrIO else None;
  many_Provide := fun _ c => if badProvide c then Some ErrIO else None
|}.

Definition nowhere (c : nat) : bool := false.

(** A write-through service with a provider. *)
Definition writeThrough : blockService :=
  New (Some SessionExchange) [WithProvider (Some TheProvider); WriteThrough].

End DemoMore.

(** ** Properties *)

Section Properties.

Context {X : Externals}.
Variable env : Env.

(** *** Running a bind *)

Lemma bind_run {A B} (m : M A) (k : A -> M B) h s :
  bind m k h s =
  (value (k (value (m h s)) (h ++ events (m h s)) (session (m h s))),
   events (m h s)
     ++ events (k (value (m h s)) (h ++ events (m h s)) (session (m h s))),
   session (k (value (m h s)) (h ++ events (m h s)) (session (m h s)))).
Proof.
  unfold bind, value, events, session.
  destruct (m h s) as [[a e1] s1]. cbn.
  destruct (k a (h ++ e1) s1) as [[b e2] s2]. reflexivity.
Qed.

Lemma bind_eq {A B} (m : M A) (k : A -> M B) h s a e1 s1 :
  m h s = (a, e1, s1) ->
  bind m k h s =
  (value (k a (h ++ e1) s1), e1 ++ events (k a (h ++ e1) s1),
   session (k a (h ++ e1) s1)).
Proof. intros H. rewrite bind_run, H. reflexivity. Qed.

(** *** The validation phase *)

Lemma valid_None a c : valid a c = true <-> ValidateCid a c = None.
Proof.
  unfold valid, notNil. destruct (ValidateCid a c); split; intros H;
    try discriminate; reflexivity.
Qed.

Lemma validated_logValidate a ks : validated (logValidate a ks) = ks.
Proof.
  induction ks as [|c ks IH]; [reflexivity | ].
  cbn. f_equal. exact IH.
Qed.

Lemma validated_app e1 e2 : validated (e1 ++ e2) = validated e1 ++ validated e2.
Proof. apply flat_map_app. Qed.

Lemma firstScan_all_valid a ks :
  Forall (fun c => valid a c = true) ks ->
  forall i last h sn,
    firstScan a ks i last h sn
    = (match ks with [] => last | _ :: _ => i + length ks - 1 end,
       logValidate a ks, sn).
Proof.
  induction 1 as [|c ks Hc Hks IH]; intros i last h sn; [reflexivity | ].
  cbn [firstScan]. rewrite bind_run. apply valid_None in Hc.
  unfold validate, call, value, events, session. cbn. rewrite Hc.
  rewrite IH. cbn. f_equal. f_equal.
  destruct ks; cbn; lia.
Qed.

Lemma firstScan_invalid a pre c post e :
  Forall (fun c => valid a c = true) pre ->
  ValidateCid a c = Some e ->
  forall i last h sn,
    firstScan a (pre ++ c :: post) i last h sn
    = (i + length pre, logValidate a (pre ++ [c]), sn).
Proof.
  intros Hpre Hc. induction Hpre as [|k pre Hk Hpre IH]; intros i last h sn.
  - cbn. unfold bind, validate, call, ret. cbn. rewrite Hc. cbn.
    f_equal. f_equal. lia.
  - cbn [app firstScan]. rewrite bind_run. apply valid_None in Hk.
    unfold validate, call, value, events, session. cbn. rewrite Hk.
    rewrite IH. cbn. f_equal. f_equal. lia.
Qed.

Lemma secondPass_run a rest :
  forall ks2 h sn,
    secondPass a rest ks2 h sn
    = (ks2 ++ filter (valid a) rest, logValidate a rest, sn).
Proof.
  induction rest as [|c rest IH]; intros ks2 h sn.
  - cbn. unfold ret. rewrite app_nil_r. reflexivity.
  - cbn [secondPass]. rewrite bind_run.
    unfold validate, call, value, events, session. cbn.
    unfold valid, notNil.
    destruct (ValidateCid a c); cbn; rewrite IH; cbn;
      rewrite <- ?app_assoc; reflexivity.
Qed.

(** A list is accepted as a whole or has a first rejected element. *)
Lemma first_invalid a ks :
  Forall (fun c => valid a c = true) ks \/
  exists pre c post,
    ks = pre ++ c :: post /\ Forall (fun c => valid a c = true) pre /\
    valid a c = false.
Proof.
  induction ks as [|k ks IH]; [left; constructor | ].
  destruct (valid a k) eqn:Hk.
  - destruct IH as [IH | (pre & c & post & -> & Hpre & Hc)].
    + left. constructor; assumption.
    + right. exists (k :: pre), c, post. repeat split; auto.
  - right. exists [], k, ks. repeat split; auto.
Qed.

Lemma filter_all_valid a ks :
  Forall (fun c => valid a c = true) ks -> filter (valid a) ks = ks.
Proof.
  induction 1 as [|c ks Hc _ IH]; cbn; [reflexivity | ].
  rewrite Hc, IH. reflexivity.
Qed.

Lemma validationPhase_invalid a pre c post h sn :
  Forall (fun c => valid a c = true) pre ->
  valid a c = false ->
  validationPhase a (pre ++ c :: post) h sn
  = (filter (valid a) (pre ++ c :: post),
     logValidate a (pre ++ [c]) ++ logValidate a (c :: post), sn).
Proof.
  intros Hpre Hc. unfold validationPhase. rewrite bind_run.
  assert (exists e, ValidateCid a c = Some e) as [e He].
  { unfold valid, notNil in Hc. destruct (ValidateCid a c); eauto.
    discriminate. }
  rewrite (firstScan_invalid a pre c post e Hpre He).
  unfold value, events, session. cbn [fst snd Nat.add].
  replace (length pre =? length (pre ++ c :: post)) with false.
  2:{ symmetry. apply Nat.eqb_neq. rewrite length_app. cbn. lia. }
  cbn [negb]. rewrite secondPass_run. cbn [fst snd].
  rewrite firstn_app, Nat.sub_diag, firstn_all, firstn_O, app_nil_r.
  rewrite skipn_app, Nat.sub_diag, skipn_all. cbn [skipn app].
  rewrite filter_app, (filter_all_valid a _ Hpre). reflexivity.
Qed.

Lemma validationPhase_all_valid a pre c h sn :
  Forall (fun c => valid a c = true) (pre ++ [c]) ->
  validationPhase a (pre ++ [c]) h sn
  = (pre ++ [c], logValidate a (pre ++ [c]) ++ logValidate a [c], sn).
Proof.
  intros Hall. unfold validationPhase. rewrite bind_run.
  rewrite (firstScan_all_valid a _ Hall).
  unfold value, events, session. cbn [fst snd Nat.add].
  assert (Hidx : match pre ++ [c] with
                 | [] => 0
                 | _ :: _ => length (pre ++ [c]) - 1
                 end = length pre).
  { destruct pre; cbn; [reflexivity | ]. rewrite length_app. cbn. lia. }
  rewrite Hidx.
  replace (length pre =? length (pre ++ [c])) with false.
  2:{ symmetry. apply Nat.eqb_neq. rewrite length_app. cbn. lia. }
  cbn [negb]. rewrite secondPass_run. cbn [fst snd].
  rewrite firstn_app, Nat.sub_diag, firstn_all, firstn_O, app_nil_r.
  rewrite skipn_app, Nat.sub_diag, skipn_all. cbn [skipn app].
  apply Forall_app in Hall. destruct Hall as [_ Hc].
  rewrite (filter_all_valid a _ Hc). reflexivity.
Qed.

Lemma validationPhase_run a ks h sn :
  exists scanned,
    validationPhase a ks h sn
    = (filter (valid a) ks, logValidate a scanned, sn).
Proof.
  destruct (first_invalid a ks) as [Hall | (pre & c & post & -> & Hpre & Hc)].
  - destruct ks as [|k ks] using rev_ind.
    + exists []. reflexivity.
    + exists ((ks ++ [k]) ++ [k]).
      rewrite (validationPhase_all_valid a ks k h sn Hall).
      rewrite (filter_all_valid a _ Hall). unfold logValidate.
      rewrite <- map_app. reflexivity.
  - exists ((pre ++ [c]) ++ c :: post).
    rewrite (validationPhase_invalid a pre c post h sn Hpre Hc).
    unfold logValidate. rewrite <- map_app. reflexivity.
Qed.

(** *** The local phase *)

Lemma bind_call {R B} (answer : list Event -> R) (mk : R -> Event)
    (k : R -> M B) h s :
  bind (call answer mk) k h s =
  (value (k (answer h) (h ++ [mk (answer h)]) s),
   mk (answer h) :: events (k (answer h) (h ++ [mk (answer h)]) s),
   session (k (answer h) (h ++ [mk (answer h)]) s)).
Proof. rewrite bind_run. reflexivity. Qed.

Lemma localPhase_run ks :
  forall misses h sn,
    let r := localPhase env ks misses h sn in
    session r = sn /\
    Forall (fun e => isLocalEv e = true) (events r) /\
    match value r with
    | Some misses' =>
      queried (events r) = ks /\
      misses' = misses ++ failedGets (events r) /\
      emitted (events r) = hits (events r) /\
      cancelled (events r) = false
    | None =>
      (exists rest, ks = queried (events r) ++ rest) /\
      (exists b, hits (events r) = emitted (events r) ++ [b]) /\
      cancelled (events r) = true
    end.
Proof.
  induction ks as [|c ks IH]; intros misses h sn r; subst r.
  - cbn. rewrite app_nil_r. repeat split; auto.
  - cbn [localPhase]. unfold Get. rewrite bind_call.
    destruct (bs_Get env h c) as [e | hit] eqn:Hget.
    + specialize (IH (misses ++ [c]) (h ++ [CallGet c (inl e)]) sn).
      cbn zeta in IH. destruct IH as (Hs & Hev & Hv).
      destruct (localPhase env ks (misses ++ [c]) _ sn) as [[v evs] s'].
      unfold value, events, session, queried, failedGets, hits, emitted,
        cancelled in *. cbn [fst snd] in *.
      split; [exact Hs | ]. split; [constructor; [reflexivity | exact Hev] | ].
      destruct v.
      * destruct Hv as (Hq & Hm & He & Hc). cbn. rewrite Hq.
        rewrite Hm, <- app_assoc. auto.
      * destruct Hv as ((rest & Hq) & Hb & Hc). cbn. repeat split; auto.
        exists rest. rewrite Hq at 1. reflexivity.
    + unfold send. rewrite bind_call.
      destruct (send_delivered env (h ++ [CallGet c (inr hit)]) hit).
      * specialize (IH misses
                      ((h ++ [CallGet c (inr hit)]) ++ [ChanSend hit true]) sn).
        cbn zeta in IH. destruct IH as (Hs & Hev & Hv).
        destruct (localPhase env ks misses _ sn) as [[v evs] s'].
        unfold value, events, session, queried, failedGets, hits, emitted,
        cancelled in *. cbn [fst snd] in *.
        split; [exact Hs | ].
        split; [repeat (constructor; [reflexivity | ]); exact Hev | ].
        destruct v.
        -- destruct Hv as (Hq & Hm & He & Hc). cbn. rewrite Hq, He. auto.
        -- destruct Hv as ((rest & Hq) & (b & Hb) & Hc). cbn.
           repeat split; auto.
           ++ exists rest. rewrite Hq at 1. reflexivity.
           ++ exists b. rewrite Hb. reflexivity.
      * cbn. repeat split; auto.
        -- exists ks. reflexivity.
        -- exists hit. reflexivity.
Qed.

(** *** The fetch factory *)

Lemma callFetchFactory_run ff h sn :
  let r := callFetchFactory ff h sn in
  events r = [CallFetchFactory (value r)] \/
  exists ex cx,
    events r = [CallNewSession ex cx; CallFetchFactory (value r)] /\
    createSession sn = false.
Proof.
  unfold callFetchFactory, runGrabSession, bind, call, ret, value, events.
  destruct ff as [s|]; cbn.
  - left. reflexivity.
  - destruct (createSession sn) eqn:Hc; cbn; [left; reflexivity | ].
    destruct (bsExchange (bs sn)) as [[|]|]; cbn; eauto.
Qed.

Lemma grabSession_marks_created ff h sn :
  ff = grabSession ->
  createSession (session (callFetchFactory ff h sn)) = true.
Proof.
  intros ->.
  unfold callFetchFactory, runGrabSession, bind, call, ret, session.
  cbn. destruct (createSession sn) eqn:Hc; cbn; [exact Hc | ].
  destruct (bsExchange (bs sn)) as [[|]|]; reflexivity.
Qed.

(** *** The network phase *)

(* Case analysis on a scrutinee that is not itself a case analysis. *)
Ltac case_inner :=
  match goal with
  | |- context [match ?x with _ => _ end] =>
    lazymatch x with
    | context [match _ with _ => _ end] => fail
    | _ => destruct x eqn:?
    end
  end.

Lemma networkPhase_run ex prov rblocks :
  forall h sn,
    let r := networkPhase env ex prov rblocks h sn in
    session r = sn /\ NetRun ex prov (events r).
Proof.
  induction rblocks as [|b rest IH]; intros h sn r; subst r;
    cbn [networkPhase];
    unfold Put, NotifyNewBlocks, Provide, send, bind, call, ret, value,
      events, session in *; cbn.
  - destruct (recv_ctx_done env h); cbn; split; auto; constructor.
  - repeat (lazymatch goal with
        | |- context [networkPhase env ?a ?b ?c ?h ?s] => fail
        | |- _ => case_inner
        end; cbn in *).
    all: try match goal with
        | |- context [networkPhase env ?a ?b ?c ?h ?s] =>
          let H := fresh "Hrec" in
          pose proof (IH h s) as H; cbn in H;
          destruct (networkPhase env a b c h s) as [[? ?] ?]
         end.
    all: cbn in *; (split; [tauto | ]).
    all: match goal with
      | |- NetRun _ _ [ChanRecv RecvCtxDone] => constructor
      | |- NetRun ?ex ?prov (ChanRecv (RecvBlock ?b) :: _) =>
        first [ exact (@NetPutFailed _ ex prov b _)
              | exact (@NetNotifyFailed _ ex prov b _)
              | exact (@NetProvideFailed _ ex prov b _)
              | exact (@NetSendCancelled _ ex prov b)
              | match goal with
                | H : _ /\ NetRun _ _ _ |- _ =>
                  exact (@NetEmitted _ ex prov b _ (proj2 H))
                end ]
      end.
Qed.

(** *** Logs of the network loop *)

Lemma split_clean (p : Event -> bool) A :
  (forall x, In x A -> p x = false) ->
  forall R t1 ev t2,
    p ev = true ->
    A ++ R = t1 ++ ev :: t2 ->
    exists t1', t1 = A ++ t1' /\ R = t1' ++ ev :: t2.
Proof.
  induction A as [|a A IH]; intros Hclean R t1 ev t2 Hev Heq.
  - exists t1. auto.
  - destruct t1 as [|x t1]; cbn in Heq; injection Heq as Hx Hrest.
    + subst a. rewrite (Hclean ev) in Hev; [discriminate | left; reflexivity].
    + subst x. destruct (IH (fun y Hy => Hclean y (or_intror Hy))
                           R t1 ev t2 Hev Hrest) as (t1' & -> & ->).
      exists t1'. auto.
Qed.

Lemma last_event (x ev : Event) t1 t2 :
  [x] = t1 ++ ev :: t2 -> t1 = [] /\ ev = x /\ t2 = [].
Proof.
  destruct t1 as [|y t1]; cbn; intros H; injection H as <- H.
  - auto.
  - destruct t1; discriminate.
Qed.

Lemma NetRun_network_events ex prov evs :
  NetRun ex prov evs -> Forall (fun e => isNetworkEv e = true) evs.
Proof.
  induction 1; destruct ex, prov; cbn;
    repeat (constructor; [reflexivity | ]); auto.
Qed.

Lemma NetRun_stops ex prov evs :
  NetRun ex prov evs ->
  forall t1 ev t2,
    evs = t1 ++ ev :: t2 ->
    isWriteBackFailure ev = true ->
    t2 = [] /\
    exists b,
      received evs = emitted evs ++ [b] /\
      match ev with
      | CallPut b' _ => b' = b
      | _ => concerns ev b /\ In (CallPut b None) t1
      end.
Proof.
  induction 1 as [ | | b e | b e | b e | b | b evs Hrun IH];
    intros t1 ev t2 Heq Hev.
  - apply last_event in Heq. destruct Heq as (_ & -> & _). discriminate.
  - apply last_event in Heq. destruct Heq as (_ & -> & _). discriminate.
  - apply (split_clean isWriteBackFailure [ChanRecv (RecvBlock b)]) in Heq;
      [ | intros x [<- | []]; reflexivity | exact Hev].
    destruct Heq as (t1' & -> & Heq). apply last_event in Heq.
    destruct Heq as (-> & -> & ->). split; [reflexivity | ].
    exists b. cbn. auto.
  - apply (split_clean isWriteBackFailure
             [ChanRecv (RecvBlock b); CallPut b None]) in Heq;
      [ | intros x [<- | [<- | []]]; reflexivity | exact Hev].
    destruct Heq as (t1' & -> & Heq). apply last_event in Heq.
    destruct Heq as (-> & -> & ->). split; [reflexivity | ].
    exists b. cbn. auto.
  - rewrite app_assoc in Heq.
    apply (split_clean isWriteBackFailure) in Heq;
      [ | destruct ex; cbn; intros x Hx;
          repeat (destruct Hx as [<- | Hx]; [reflexivity | ]); destruct Hx
        | exact Hev].
    destruct Heq as (t1' & -> & Heq). apply last_event in Heq.
    destruct Heq as (-> & -> & ->). split; [reflexivity | ].
    exists b. destruct ex; cbn; auto.
  - rewrite !app_assoc in Heq. rewrite <- (app_nil_r (_ ++ [ChanSend b false])) in Heq.
    apply (split_clean isWriteBackFailure) in Heq;
      [ | destruct ex, prov; cbn; intros x Hx;
          repeat (destruct Hx as [<- | Hx]; [reflexivity | ]); destruct Hx
        | exact Hev].
    destruct Heq as (t1' & _ & Heq). destruct t1'; discriminate.
  - rewrite !app_assoc in Heq.
    apply (split_clean isWriteBackFailure) in Heq;
      [ | destruct ex, prov; cbn; intros x Hx;
          repeat (destruct Hx as [<- | Hx]; [reflexivity | ]); destruct Hx
        | exact Hev].
    destruct Heq as (t1' & -> & Heq).
    destruct (IH t1' ev t2 Heq Hev) as (-> & b' & Hre & Hb).
    split; [reflexivity | ]. exists b'. split.
    + unfold received, emitted in *.
      destruct ex, prov; cbn; rewrite Hre; reflexivity.
    + destruct ev; try exact Hb; destruct Hb as [Hc Hin];
        (split; [exact Hc | apply in_or_app; right; exact Hin]).
Qed.

(** *** The phases of getBlocks *)

Lemma getBlocks_run ks b ff h sn :
  let a := grabAllowlistFromBlockservice b in
  let r := getBlocks env ks b ff h sn in
  exists ve le rest,
    events r = ve ++ le ++ rest /\
    Forall (fun e => isValidateEv e = true) ve /\
    Forall (fun e => isLocalEv e = true) le /\
    Forall (fun e => isFactoryEv e || isNetworkEv e = true) rest /\
    ((cancelled le = true /\ rest = [] /\
      (exists more, filter (valid a) ks = queried le ++ more) /\
      (exists blk, hits le = emitted le ++ [blk]))
     \/
     (cancelled le = false /\ queried le = filter (valid a) ks /\
      emitted le = hits le /\
      (ff = grabSession -> createSession (session r) = true) /\
      exists fe fr ne,
        rest = fe ++ ne /\
        (fe = [CallFetchFactory fr] \/
         exists ex cx, fe = [CallNewSession ex cx; CallFetchFactory fr]) /\
        ((ne = [] /\ (failedGets le = [] \/ fr = None))
         \/
         exists f gr ne',
           fr = Some f /\ failedGets le <> [] /\
           ne = CallFetchGetBlocks f (failedGets le) gr :: ne' /\
           match gr with
           | inl _ => ne' = []
           | inr _ =>
             NetRun (bsExchange b) (grabProviderFromBlockservice b) ne'
           end))).
Proof.
  intros a r. subst r. unfold getBlocks. fold a.
  destruct (validationPhase_run a ks h sn) as [scanned Hv].
  rewrite (bind_eq _ _ _ _ _ _ _ Hv).
  pose proof (localPhase_run (filter (valid a) ks) []
                (h ++ logValidate a scanned) sn) as Hl.
  cbn zeta in Hl.
  destruct (localPhase env (filter (valid a) ks) []
              (h ++ logValidate a scanned) sn) as [[local le] s1] eqn:Hlp.
  rewrite (bind_eq _ _ _ _ _ _ _ Hlp).
  unfold value, events, session in Hl. cbn [fst snd] in Hl.
  destruct Hl as (-> & Hle & Hl).
  exists (logValidate a scanned), le.
  assert (Hve : Forall (fun e => isValidateEv e = true)
                  (logValidate a scanned)).
  { unfold logValidate. apply Forall_map, Forall_forall. reflexivity. }
  destruct local as [misses|].
  - destruct Hl as (Hq & Hm & He & Hc). cbn [app] in Hm. subst misses.
    pose proof (callFetchFactory_run ff
                  ((h ++ logValidate a scanned) ++ le) sn) as Hf.
    pose proof (grabSession_marks_created ff
                  ((h ++ logValidate a scanned) ++ le) sn) as Hg.
    cbn zeta in Hf.
    destruct (callFetchFactory ff ((h ++ logValidate a scanned) ++ le) sn)
      as [[fr fe] s2] eqn:Hff.
    rewrite (bind_eq _ _ _ _ _ _ _ Hff).
    unfold value, events, session in Hf, Hg. cbn [fst snd] in Hf, Hg.
    assert (Hfe : fe = [CallFetchFactory fr] \/
                  exists ex cx, fe = [CallNewSession ex cx; CallFetchFactory fr]).
    { destruct Hf as [Hf | (ex & cx & Hf & _)]; eauto. }
    clear Hf.
    assert (Hfc : Forall (fun e => isFactoryEv e || isNetworkEv e = true) fe).
    { destruct Hfe as [-> | (ex & cx & ->)];
        repeat (constructor; [reflexivity | ]); constructor. }
    destruct (failedGets le) as [|m misses] eqn:Hmiss.
    + exists (fe ++ []). unfold ret, value, events, session. cbn [fst snd].
      rewrite !app_nil_r.
      repeat split; auto. right. repeat split; auto.
      exists fe, fr, []. rewrite app_nil_r.
      split; [reflexivity | split; [exact Hfe | left; auto]].
    + destruct fr as [f|].
      * unfold fetchGetBlocks. rewrite bind_call.
        destruct (fetch_GetBlocks env _ f (m :: misses)) as [e|rblocks].
        -- unfold ret, value, events, session. cbn [fst snd].
           exists (fe ++ [CallFetchGetBlocks f (m :: misses) (inl e)]).
           repeat split; auto.
           { apply Forall_app. split; [exact Hfc | ].
             constructor; [reflexivity | constructor]. }
           right. repeat split; auto.
           exists fe, (Some f), [CallFetchGetBlocks f (m :: misses) (inl e)].
           repeat split; auto. right.
           exists f, (inl e), []. repeat split; auto. discriminate.
        -- match goal with
           | |- context [networkPhase env ?x ?p ?c ?hh ?ss] =>
             destruct (networkPhase_run x p c hh ss) as [Hs Hr];
             destruct (networkPhase env x p c hh ss) as [[v ne] s3]
           end.
           unfold value, events, session in *. cbn [fst snd] in *.
           exists (fe ++ CallFetchGetBlocks f (m :: misses) (inr rblocks) :: ne).
           repeat split; auto.
           { apply Forall_app. split; [exact Hfc | ].
             constructor; [reflexivity | ].
             eapply Forall_impl; [ | exact (NetRun_network_events _ _ _ Hr)].
             cbn. intros x ->. apply orb_true_r. }
           right. repeat split; auto.
           { intros Hgs. subst s3. exact (Hg Hgs). }
           exists fe, (Some f),
             (CallFetchGetBlocks f (m :: misses) (inr rblocks) :: ne).
           repeat split; auto. right.
           exists f, (inr rblocks), ne. repeat split; auto. discriminate.
      * exists (fe ++ []). unfold ret, value, events, session. cbn [fst snd].
        rewrite !app_nil_r.
        repeat split; auto. right. repeat split; auto.
        exists fe, None, []. rewrite app_nil_r.
        split; [reflexivity | split; [exact Hfe | left; auto]].
  - destruct Hl as (Hq & Hb & Hc).
    exists []. unfold ret, value, events, session. cbn [fst snd].
    repeat split; auto.
Qed.

(** *** Reading the log of getBlocks *)

Lemma flat_map_nil {A B} (f : A -> list B) l :
  (forall x, In x l -> f x = []) -> flat_map f l = [].
Proof.
  induction l as [|x l IH]; intros H; [reflexivity | ].
  cbn. rewrite (H x (or_introl eq_refl)), IH; [reflexivity | ].
  intros y Hy. apply H. right. exact Hy.
Qed.

Lemma existsb_none {A} (p : A -> bool) l :
  (forall x, In x l -> p x = false) -> existsb p l = false.
Proof.
  induction l as [|x l IH]; intros H; [reflexivity | ].
  cbn. rewrite (H x (or_introl eq_refl)), IH; [reflexivity | ].
  intros y Hy. apply H. right. exact Hy.
Qed.

(* The projection named in the goal is empty on a log whose events all
   belong to a class given by a hypothesis. *)
Ltac class_nil H :=
  first [apply flat_map_nil | apply existsb_none];
  let x := fresh "x" in
  let Hx := fresh "Hx" in
  intros x Hx; rewrite Forall_forall in H; specialize (H x Hx);
  destruct x as [| | | | | | | | | | | | ? []]; try discriminate H;
  try reflexivity;
  match goal with
  | r : (_ + _)%type |- _ => destruct r; try discriminate H; reflexivity
  end.

Lemma phases_log ve le rest :
  Forall (fun e => isValidateEv e = true) ve ->
  Forall (fun e => isFactoryEv e || isNetworkEv e = true) rest ->
  queried (ve ++ le ++ rest) = queried le /\
  failedGets (ve ++ le ++ rest) = failedGets le /\
  hits (ve ++ le ++ rest) = hits le /\
  emitted (ve ++ le ++ rest) = emitted le ++ emitted rest /\
  cancelled (ve ++ le ++ rest) = cancelled le || cancelled rest.
Proof.
  intros Hve Hrest.
  assert (queried ve = []) as Hq1 by (clear Hrest; class_nil Hve).
  assert (failedGets ve = []) as Hf1 by (clear Hrest; class_nil Hve).
  assert (hits ve = []) as Hh1 by (clear Hrest; class_nil Hve).
  assert (emitted ve = []) as He1 by (clear Hrest; class_nil Hve).
  assert (cancelled ve = false) as Hc1 by (clear Hrest; class_nil Hve).
  assert (queried rest = []) as Hq2 by (clear Hve; class_nil Hrest).
  assert (failedGets rest = []) as Hf2 by (clear Hve; class_nil Hrest).
  assert (hits rest = []) as Hh2 by (clear Hve; class_nil Hrest).
  unfold queried, failedGets, hits, emitted, cancelled in *.
  rewrite !flat_map_app, !existsb_app.
  rewrite Hq1, Hf1, Hh1, He1, Hc1, Hq2, Hf2, Hh2, !app_nil_r.
  repeat split; reflexivity.
Qed.

(** A failed write-back step is the last event of the whole run, and the
    block it was about is the one block taken from the fetcher that was not
    delivered. *)
Lemma getBlocks_stops ks b ff h sn :
  let r := getBlocks env ks b ff h sn in
  forall t1 ev t2,
    events r = t1 ++ ev :: t2 ->
    isWriteBackFailure ev = true ->
    t2 = [] /\
    exists blk,
      hits (events r) ++ received (events r) = emitted (events r) ++ [blk] /\
      match ev with
      | CallPut b' _ => b' = blk
      | _ => concerns ev blk /\ In (CallPut blk None) t1
      end.
Proof.
  intros r t1 ev t2 Heq Hev.
  destruct (getBlocks_run ks b ff h sn)
    as (ve & le & rest & Hevs & Hve & Hle & Hrest & Hcases).
  fold r in Hevs, Hcases.
  assert (Hclean : forall l,
             Forall (fun e => isValidateEv e || isLocalEv e || isFactoryEv e
                              = true) l ->
             forall x, In x l -> isWriteBackFailure x = false).
  { intros l Hl x Hx. rewrite Forall_forall in Hl. specialize (Hl x Hx).
    destruct x as [| | |? []| | | | | |? []|? []| | ]; try discriminate Hl;
      reflexivity. }
  assert (Hnone : forall l,
             Forall (fun e => isValidateEv e || isLocalEv e || isFactoryEv e
                              = true) l ->
             t1 ++ ev :: t2 <> l).
  { intros l Hl Hcontra.
    rewrite <- (app_nil_r l) in Hcontra. symmetry in Hcontra.
    apply (split_clean isWriteBackFailure l (Hclean l Hl)) in Hcontra;
      [ | exact Hev].
    destruct Hcontra as (t1' & _ & Hnil). destruct t1'; discriminate. }
  assert (Hvl : Forall (fun e => isValidateEv e || isLocalEv e
                                 || isFactoryEv e = true) (ve ++ le)).
  { apply Forall_app. split.
    - eapply Forall_impl; [ | exact Hve]. cbn. intros x ->. reflexivity.
    - eapply Forall_impl; [ | exact Hle]. cbn. intros x ->.
      rewrite orb_true_r. reflexivity. }
  rewrite Hevs in Heq.
  destruct Hcases as [(_ & -> & _)
                     | (_ & _ & Hemit & _ & fe & fr & ne & -> & Hfe & Hne)].
  { exfalso. apply (Hnone (ve ++ le)); [exact Hvl | ].
    rewrite <- Heq, app_nil_r. reflexivity. }
  assert (Hfc : Forall (fun e => isValidateEv e || isLocalEv e
                                 || isFactoryEv e = true) fe).
  { destruct Hfe as [-> | (ex & cx & ->)];
      repeat (constructor; [reflexivity | ]); constructor. }
  destruct Hne as [(-> & _) | (f & gr & ne' & _ & _ & -> & Hgr)].
  { exfalso. apply (Hnone ((ve ++ le) ++ fe)).
    - apply Forall_app. split; assumption.
    - rewrite <- Heq, app_nil_r, app_assoc. reflexivity. }
  set (pre := ((ve ++ le) ++ fe)
                ++ [CallFetchGetBlocks f (failedGets le) gr]).
  assert (Hpre : Forall (fun e => isValidateEv e || isLocalEv e
                                  || isFactoryEv e = true) pre).
  { unfold pre. apply Forall_app. split.
    - apply Forall_app. split; assumption.
    - constructor; [reflexivity | constructor]. }
  assert (Hsplit : ve ++ le ++ fe
                      ++ CallFetchGetBlocks f (failedGets le) gr :: ne'
                   = pre ++ ne').
  { unfold pre. rewrite <- !app_assoc. reflexivity. }
  rewrite Hsplit in Heq, Hevs.
  destruct gr as [e | rblocks].
  { subst ne'. exfalso. apply (Hnone pre Hpre).
    rewrite <- Heq, app_nil_r. reflexivity. }
  apply (split_clean isWriteBackFailure pre (Hclean pre Hpre)) in Heq;
    [ | exact Hev].
  destruct Heq as (t1' & -> & Heq).
  destruct (NetRun_stops _ _ _ Hgr t1' ev t2 Heq Hev) as (-> & blk & Hre & Hb).
  split; [reflexivity | ]. exists blk. split.
  - rewrite Hevs.
    assert (received pre = []) as Hr1 by (clear Hclean Hnone; class_nil Hpre).
    assert (hits ne' = []) as Hh2.
    { pose proof (NetRun_network_events _ _ _ Hgr) as Hn. class_nil Hn. }
    assert (hits pre = hits le /\ emitted pre = emitted le) as [Hh1 He1].
    { unfold pre. rewrite <- !app_assoc.
      assert (Hr : Forall (fun e => isFactoryEv e || isNetworkEv e = true)
                     (fe ++ [CallFetchGetBlocks f (failedGets le)
                               (inr rblocks)])).
      { apply Forall_app. split.
        - destruct Hfe as [-> | (ex & cx & ->)];
            repeat (constructor; [reflexivity | ]); constructor.
        - constructor; [reflexivity | constructor]. }
      destruct (phases_log ve le _ Hve Hr) as (_ & _ & -> & -> & _).
      split; [reflexivity | ].
      assert (forall l, Forall (fun e => isFactoryEv e = true) l ->
                        emitted l = []) as Hem.
      { intros l Hl. class_nil Hl. }
      rewrite (Hem (fe ++ _)), app_nil_r; [reflexivity | ].
      apply Forall_app. split.
      - destruct Hfe as [-> | (ex & cx & ->)];
          repeat (constructor; [reflexivity | ]); constructor.
      - constructor; [reflexivity | constructor]. }
    unfold hits, received, emitted in *. rewrite !flat_map_app.
    rewrite Hr1, Hh2, Hh1, He1, Hre, Hemit, app_nil_r, app_nil_l, app_assoc.
    reflexivity.
  - destruct ev; try exact Hb; destruct Hb as [Hc Hin];
      (split; [exact Hc | apply in_or_app; right; exact Hin]).
Qed.

Lemma in_failedGets c e evs :
  In (CallGet c (inl e)) evs -> In c (failedGets evs).
Proof.
  intros H. unfold failedGets. apply in_flat_map.
  exists (CallGet c (inl e)). split; [exact H | left; reflexivity].
Qed.

(** *** Single operations *)

Ltac run :=
  unfold addTwice, AddBlock, GetBlock, Session_GetBlock, getBlock, DeleteBlock,
    callFetchFactory, runGrabSession, validate, Has, Get, Put,
    storeDeleteBlock, fetchGetBlock, fetchGetBlocks, NotifyNewBlocks, Provide,
    send, bind, ret, call, value, events, session; cbn.

Ltac in_cases H :=
  repeat (destruct H as [H | H]; [try discriminate H | ]);
  try contradiction.

(** *** The claims *)

(** C1.  An identifier that the allow-list rejects makes [AddBlock] and
    [getBlock] (so [GetBlock] of a service and of a session) return the
    validation error at once.  The log holds the [ValidateCid] call and
    nothing else: no [Has], [Get] or [Put], no fetch factory or fetcher
    call, no notification and no advertisement; the session is left as it
    was. *)
Theorem C1_rejected_identifier_touches_nothing :
  forall (s : blockService) (o : Block) (c : Cid) (b : BlockService)
         (fetchFactory : FetchFactory) (e1 e2 : Err)
         (h : list Event) (sn : Session),
    ValidateCid (allowlist s) (BlockCid o) = Some e1 ->
    ValidateCid (grabAllowlistFromBlockservice b) c = Some e2 ->
    AddBlock env s o h sn
      = (Some e1, [CallValidateCid (BlockCid o) (Some e1)], sn) /\
    getBlock env c b fetchFactory h sn
      = (inl e2, [CallValidateCid c (Some e2)], sn).
Proof.
  intros s o c b ff e1 e2 h sn H1 H2. run.
  rewrite H1, H2. cbn. split; reflexivity.
Qed.

(** C2.  What the validation phase of [getBlocks] hands to [ValidateCid],
    in order.  With a first rejected identifier [c] after an accepted
    prefix [pre], the first scan reads [pre] and [c] and stops there, and
    the second pass reads from [c] to the end of the input, never [pre].
    On a non-empty input accepted as a whole the range ends with
    [lastAllValidIndex = len(ks) - 1], the test
    [lastAllValidIndex != len(ks)] succeeds, and the second pass runs all
    the same, over the last identifier, which is validated a second time. *)
Theorem C2_validation_scans :
  forall (a : Allowlist) (pre : list Cid) (c : Cid) (post : list Cid)
         (h : list Event) (sn : Session),
    Forall (fun k => valid a k = true) pre ->
    let r := validationPhase a (pre ++ c :: post) h sn in
    (valid a c = false ->
     validated (events r) = (pre ++ [c]) ++ (c :: post)) /\
    (valid a c = true -> post = [] ->
     validated (events r) = (pre ++ [c]) ++ [c]).
Proof.
  intros a pre c post h sn Hpre r. subst r. split.
  - intros Hc. rewrite (validationPhase_invalid a pre c post h sn Hpre Hc).
    unfold events. cbn [fst snd].
    rewrite validated_app, !validated_logValidate. reflexivity.
  - intros Hc ->.
    assert (Hall : Forall (fun k => valid a k = true) (pre ++ [c])).
    { apply Forall_app. split; [exact Hpre | ]. constructor; auto. }
    rewrite (validationPhase_all_valid a pre c h sn Hall).
    unfold events. cbn [fst snd].
    rewrite validated_app, !validated_logValidate. reflexivity.
Qed.

(** C3.  Store errors in [getBlocks].  A failing [Get] of the local phase
    does not stop it: unless a send is cancelled, every accepted identifier
    is looked up.  The identifier of a failed [Get], whatever the error, is
    among the misses, and once the fetch factory has given a fetcher these
    misses are what its [GetBlocks] is asked for.  A failed [Put] of a
    block that came from the fetcher is the last event of the run: nothing
    is emitted after it, and the block it was about is the one received
    block that was not emitted. *)
Theorem C3_store_errors_in_getBlocks :
  forall (ks : list Cid) (b : BlockService) (ff : FetchFactory)
         (h : list Event) (sn : Session),
    let a := grabAllowlistFromBlockservice b in
    let r := getBlocks env ks b ff h sn in
    (cancelled (events r) = false ->
     queried (events r) = filter (valid a) ks) /\
    (forall c e f,
        In (CallGet c (inl e)) (events r) ->
        In (CallFetchFactory (Some f)) (events r) ->
        In c (failedGets (events r)) /\
        exists gr,
          In (CallFetchGetBlocks f (failedGets (events r)) gr) (events r)) /\
    (forall t1 blk e t2,
        events r = t1 ++ CallPut blk (Some e) :: t2 ->
        t2 = [] /\
        hits (events r) ++ received (events r) = emitted (events r) ++ [blk]).
Proof.
  intros ks b ff h sn a r.
  destruct (getBlocks_run ks b ff h sn)
    as (ve & le & rest & Hev & Hve & Hle & Hrest & Hcases).
  fold a r in Hev, Hcases.
  destruct (phases_log ve le rest Hve Hrest) as (Hq & Hf & _ & _ & Hc).
  split; [ | split].
  - rewrite Hev, Hq, Hc. intros Hnc. apply orb_false_elim in Hnc.
    destruct Hnc as [Hnc _].
    destruct Hcases as [(Hcl & _) | (_ & Hql & _)]; [congruence | exact Hql].
  - intros c e f Hget Hfac. split; [exact (in_failedGets c e _ Hget) | ].
    apply in_failedGets in Hget. rewrite Hev in Hfac, Hget |- *.
    rewrite Hf in Hget |- *.
    assert (Hin : In (CallFetchFactory (Some f)) rest).
    { apply in_app_or in Hfac. destruct Hfac as [Hin | Hin].
      - rewrite Forall_forall in Hve. specialize (Hve _ Hin). discriminate.
      - apply in_app_or in Hin. destruct Hin as [Hin | Hin]; [ | exact Hin].
        rewrite Forall_forall in Hle. specialize (Hle _ Hin). discriminate. }
    destruct Hcases as [(_ & -> & _)
                       | (_ & _ & _ & _ & fe & fr & ne & -> & Hfe & Hne)];
      [destruct Hin | ].
    assert (Hfr : ne = [] -> fr = Some f).
    { intros ->. rewrite app_nil_r in Hin.
      destruct Hfe as [-> | (ex & cx & ->)]; cbn in Hin;
        repeat (destruct Hin as [Hin | Hin]; try discriminate Hin);
        try contradiction; injection Hin as ->; reflexivity. }
    destruct Hne as [(-> & [Hnil | ->]) | (f' & gr & ne' & -> & _ & -> & Hgr)].
    + rewrite Hnil in Hget. destruct Hget.
    + specialize (Hfr eq_refl). discriminate.
    + assert (f' = f) as ->.
      { apply in_app_or in Hin. destruct Hin as [Hin | Hin].
        - destruct Hfe as [-> | (ex & cx & ->)]; cbn in Hin;
            repeat (destruct Hin as [Hin | Hin]; try discriminate Hin);
            try contradiction; injection Hin as ->; reflexivity.
        - destruct Hin as [Hin | Hin]; [discriminate Hin | ].
          destruct gr as [? | rblocks]; [subst ne'; destruct Hin | ].
          pose proof (NetRun_network_events _ _ _ Hgr) as Hn.
          rewrite Forall_forall in Hn. specialize (Hn _ Hin). discriminate. }
      exists gr. apply in_or_app. right. apply in_or_app. right.
      apply in_or_app. right. left. reflexivity.
  - intros t1 blk e t2 Heq.
    destruct (getBlocks_stops ks b ff h sn t1 _ t2 Heq eq_refl)
      as (-> & blk' & Hlog & <-).
    auto.
Qed.

(** C4.  In [getBlocks], a notification of the exchange or an
    advertisement that fails is the last event of the run.  It concerns a
    block that was taken from the fetcher and whose [Put] succeeded; that
    block is the one received block that is not emitted, and nothing is
    received or emitted after it. *)
Theorem C4_failed_announcement_ends_the_sequence :
  forall (ks : list Cid) (b : BlockService) (ff : FetchFactory)
         (h : list Event) (sn : Session),
    let r := getBlocks env ks b ff h sn in
    forall t1 ev t2,
      events r = t1 ++ ev :: t2 ->
      isAnnounceFailure ev = true ->
      t2 = [] /\
      exists blk,
        concerns ev blk /\
        In (CallPut blk None) t1 /\
        hits (events r) ++ received (events r) = emitted (events r) ++ [blk].
Proof.
  intros ks b ff h sn r t1 ev t2 Heq Hev.
  assert (Hw : isWriteBackFailure ev = true).
  { unfold isWriteBackFailure. rewrite Hev. apply orb_true_r. }
  destruct (getBlocks_stops ks b ff h sn t1 ev t2 Heq Hw)
    as (-> & blk & Hlog & Hb).
  split; [reflexivity | ]. exists blk.
  destruct ev; try discriminate Hev; destruct Hb as [Hc Hin]; auto.
Qed.

(** C5, as amended.  When [getBlock] has fetched [blk] from the fetcher
    (which happens only for an accepted identifier that the store reported
    as not found), it makes exactly one [Put], of [blk].  When that [Put]
    and the announcements succeed, it returns [blk] itself, after one
    notification of [blk] if the service has an exchange and one
    advertisement of its identifier if the service has a provider, and
    none of either otherwise. *)
Theorem C5_fetched_block_is_cached_and_announced :
  forall (c : Cid) (b : BlockService) (fetchFactory : FetchFactory)
         (f : Fetcher) (blk : Block) (h : list Event) (sn : Session),
    let r := getBlock env c b fetchFactory h sn in
    In (CallFetchGetBlock f c (inr blk)) (events r) ->
    (exists perr, filter isPut (events r) = [CallPut blk perr]) /\
    (existsb isPutFailure (events r) = false ->
     existsb isAnnounceFailure (events r) = false ->
     value r = inr blk /\
     filter isNotify (events r)
       = match bsExchange b with
         | Some _ => [CallNotifyNewBlocks [blk] None]
         | None => []
         end /\
     filter isProvide (events r)
       = match grabProviderFromBlockservice b with
         | Some _ => [CallProvide (BlockCid blk) None]
         | None => []
         end).
Proof.
  intros c b ff f blk h sn. run.
  destruct ff as [s|];
    [ destruct (exchange s)
    | destruct (ses sn), (createSession sn);
      [ | destruct (bsExchange (bs sn)) as [[|]|]
        | | destruct (bsExchange (bs sn)) as [[|]|] ] ];
  cbn; repeat (case_inner; cbn);
    intros H; in_cases H;
    try (injection H as <- <-); try (injection H as <- <- <-);
    (split; [eauto | ]); intros; try discriminate; auto.
Qed.

(** C6.  With check-before-write on and an accepted identifier: when the
    store answers [Has] with [true], [AddBlock] returns the error that came
    with the answer (success when there is none) after the [Has] call
    alone, without [Put], notification or advertisement.  Hence two
    [AddBlock] calls in a row with a block that is absent at first, on a
    store that accepts the [Put] and then reports the block as present,
    both succeed with exactly one [Put] between them, and one notification
    and one advertisement at most (as many as there are an exchange and a
    provider). *)
Theorem C6_check_before_write_is_idempotent :
  forall (s : blockService) (o : Block) (h : list Event) (sn : Session),
    let c := BlockCid o in
    ValidateCid (allowlist s) c = None ->
    checkFirst s = true ->
    (forall err,
        bs_Has env (h ++ [CallValidateCid c None]) c = (true, err) ->
        AddBlock env s o h sn
          = (err, [CallValidateCid c None; CallHas c true err], sn)) /\
    (bs_Has env (h ++ [CallValidateCid c None]) c = (false, None) ->
     bs_Put env (h ++ [CallValidateCid c None; CallHas c false None]) o
       = None ->
     bs_Has env (h ++ events (AddBlock env s o h sn)
                   ++ [CallValidateCid c None]) c = (true, None) ->
     let r := addTwice env s o h sn in
     value r = (None, None) /\
     filter isPut (events r) = [CallPut o None] /\
     length (filter isNotify (events r))
       = match exchange s with Some _ => 1 | None => 0 end /\
     length (filter isProvide (events r))
       = match provider s with Some _ => 1 | None => 0 end).
Proof.
  intros s o h sn c Hv Hc. split.
  - intros err Hh. run. fold c. rewrite Hv. cbn. rewrite Hc, Hh. cbn.
    reflexivity.
  - intros Hh Hp. run. fold c. rewrite Hv. cbn. rewrite Hc, Hh. cbn.
    rewrite <- !app_assoc. cbn. rewrite Hp. cbn.
    destruct (exchange s), (provider s); cbn;
      rewrite <- ?app_assoc; cbn; intros Hh2; rewrite Hh2; cbn; auto.
Qed.

(** C7.  When is the fetch factory invoked.  In [getBlocks] it is invoked
    whenever the local phase ran to its end, that is unless a send was
    cancelled, whether or not anything was missed; with the factory of a
    session this leaves the session initialised.  In [getBlock] it is
    invoked only after the store's [Get] came back with a not-found
    error. *)
Theorem C7_fetch_factory_runs_after_every_local_phase :
  forall (ks : list Cid) (c : Cid) (b : BlockService) (ff : FetchFactory)
         (h : list Event) (sn : Session),
    let many := getBlocks env ks b ff h sn in
    let one := getBlock env c b ff h sn in
    (cancelled (events many) = false ->
     (exists fr, In (CallFetchFactory fr) (events many)) /\
     (ff = grabSession -> createSession (session many) = true)) /\
    (forall fr, In (CallFetchFactory fr) (events one) ->
                exists e, In (CallGet c (inl e)) (events one) /\
                          IsNotFound e = true).
Proof.
  intros ks c b ff h sn many one. split.
  - destruct (getBlocks_run ks b ff h sn)
      as (ve & le & rest & Hev & Hve & Hle & Hrest & Hcases).
    fold many in Hev, Hcases. rewrite Hev.
    destruct (phases_log ve le rest Hve Hrest) as (_ & _ & _ & _ & ->).
    destruct Hcases as [(Hc & _) | (Hc & _ & _ & Hs & fe & fr & ne & -> & Hfe & _)].
    + rewrite Hc. discriminate.
    + intros _. split; [ | exact Hs]. exists fr.
      apply in_or_app. right. apply in_or_app. right. apply in_or_app. left.
      destruct Hfe as [-> | (ex & cx & ->)]; cbn; auto.
  - subst one.
    unfold getBlock, callFetchFactory, runGrabSession, validate, Get, Put,
      fetchGetBlock, NotifyNewBlocks, Provide, bind, ret, call, value, events,
      session.
    destruct ff as [s|];
      [ destruct (exchange s)
      | destruct (ses sn), (createSession sn);
        [ | destruct (bsExchange (bs sn)) as [[|]|]
          | | destruct (bsExchange (bs sn)) as [[|]|] ] ];
    cbn; repeat (case_inner; cbn);
      intros fr H;
      repeat (destruct H as [H | H]; [try discriminate H | ]);
      try contradiction; eauto 6.
Qed.

(** C8.  For an accepted identifier that the store reports as not found,
    when the fetch factory gives no fetcher (no exchange is configured),
    [getBlock] returns the very error of the store's [Get], and the run
    ends with the factory call. *)
Theorem C8_not_found_without_exchange :
  forall (c : Cid) (b : BlockService) (fetchFactory : FetchFactory)
         (e : Err) (h : list Event) (sn : Session),
    ValidateCid (grabAllowlistFromBlockservice b) c = None ->
    bs_Get env (h ++ [CallValidateCid c None]) c = inl e ->
    IsNotFound e = true ->
    value (callFetchFactory fetchFactory
             (h ++ [CallValidateCid c None; CallGet c (inl e)]) sn) = None ->
    let r := getBlock env c b fetchFactory h sn in
    value r = inl e /\
    events r = [CallValidateCid c None; CallGet c (inl e);
                CallFetchFactory None].
Proof.
  intros c b ff e h sn Hv Hg Hnf Hff. revert Hff. run.
  rewrite Hv. cbn. rewrite Hg. cbn. rewrite Hnf. 
  rewrite <- app_assoc. cbn.
  destruct ff as [s|]; cbn.
  - destruct (exchange s); cbn; intros; [discriminate | auto].
  - destruct (createSession sn); cbn.
    + intros ->. auto.
    + destruct (bsExchange (bs sn)) as [[|]|]; cbn; intros Hff;
        try discriminate Hff; rewrite ?Hff; auto.
Qed.

(** C9.  [DeleteBlock] is the store's [DeleteBlock] and nothing else,
    for every identifier: whatever the allow-list says of it, the log holds
    that one call, without validation or notification, and the result is
    the store's. *)
Theorem C9_delete_is_a_pass_through :
  forall (s : blockService) (c : Cid) (h : list Event) (sn : Session),
    let r := DeleteBlock env s c h sn in
    value r = bs_DeleteBlock env h c /\
    events r = [CallDeleteBlock c (bs_DeleteBlock env h c)] /\
    validated (events r) = [] /\
    filter isNotify (events r) = [] /\
    session r = sn.
Proof.
  intros s c h sn r. subst r.
  unfold DeleteBlock, storeDeleteBlock, call, value, events, session.
  cbn. repeat split; reflexivity.
Qed.

(** C10.  The validation phase of [getBlocks] yields the accepted
    identifiers of the input in their input order.  The local phase looks
    them up in that order (all of them unless a send is cancelled), and
    emits the blocks found in lookup order: they come first among the
    emitted blocks, or, at a cancellation, all but the last one found have
    been emitted. *)
Theorem C10_accepted_identifiers_keep_their_order :
  forall (ks : list Cid) (b : BlockService) (ff : FetchFactory)
         (h : list Event) (sn : Session),
    let a := grabAllowlistFromBlockservice b in
    let r := getBlocks env ks b ff h sn in
    value (validationPhase a ks h sn) = filter (valid a) ks /\
    (exists more,
        filter (valid a) ks = queried (events r) ++ more /\
        (cancelled (events r) = false -> more = [])) /\
    ((exists later, emitted (events r) = hits (events r) ++ later) \/
     (exists blk, hits (events r) = emitted (events r) ++ [blk])).
Proof.
  intros ks b ff h sn a r. split.
  { destruct (validationPhase_run a ks h sn) as [scanned ->]. reflexivity. }
  destruct (getBlocks_run ks b ff h sn)
    as (ve & le & rest & Hev & Hve & Hle & Hrest & Hcases).
  fold a r in Hev, Hcases. rewrite Hev.
  destruct (phases_log ve le rest Hve Hrest) as (-> & _ & -> & -> & ->).
  destruct Hcases as [(Hc & -> & (more & Hq) & (blk & Hh))
                     | (Hc & Hq & He & _)].
  - split.
    + exists more. split; [exact Hq | ]. rewrite Hc. discriminate.
    + right. exists blk. cbn. rewrite app_nil_r. exact Hh.
  - split.
    + exists []. rewrite app_nil_r. auto.
    + left. exists (emitted rest). rewrite He. reflexivity.
Qed.

(** *** More on the single operations *)

(* Every way the fetch factory can be set up. *)
Ltac factory_cases ff sn :=
  destruct ff as [?s|];
  [ destruct (exchange s)
  | destruct (ses sn), (createSession sn);
    [ | destruct (bsExchange (bs sn)) as [[|]|]
      | | destruct (bsExchange (bs sn)) as [[|]|] ] ].

(** X1.  Unless the store reports the block as not found, [getBlock] ends
    with the store's [Get]: a block found locally, or a store error of
    another kind, is returned as it is, the fetch factory is not invoked,
    nothing is fetched, written or announced, and the session is left as it
    was. *)
Theorem getBlock_ends_with_the_store_answer :
  forall (c : Cid) (b : BlockService) (ff : FetchFactory)
         (h : list Event) (sn : Session),
    ValidateCid (grabAllowlistFromBlockservice b) c = None ->
    (forall e, bs_Get env (h ++ [CallValidateCid c None]) c = inl e ->
               IsNotFound e = false) ->
    getBlock env c b ff h sn
    = (bs_Get env (h ++ [CallValidateCid c None]) c,
       [CallValidateCid c None;
        CallGet c (bs_Get env (h ++ [CallValidateCid c None]) c)],
       sn).
Proof.
  intros c b ff h sn Hv Hnf. run. rewrite Hv. cbn.
  destruct (bs_Get env (h ++ [CallValidateCid c None]) c) as [e|blk] eqn:Hg;
    cbn; [ | reflexivity].
  rewrite (Hnf e eq_refl). reflexivity.
Qed.

(** X2.  A block that [getBlock] returns is the block the store's [Get]
    returned or a block that a fetcher returned for the same identifier;
    in the second case the store has accepted its [Put] and no
    notification or advertisement has failed. *)
Theorem getBlock_returns_stored_or_persisted_block :
  forall (c : Cid) (b : BlockService) (ff : FetchFactory)
         (h : list Event) (sn : Session) (blk : Block),
    let r := getBlock env c b ff h sn in
    value r = inr blk ->
    In (CallGet c (inr blk)) (events r) \/
    ((exists f, In (CallFetchGetBlock f c (inr blk)) (events r)) /\
     persisted (events r) = [blk] /\
     existsb isAnnounceFailure (events r) = false).
Proof.
  intros c b ff h sn blk. run. unfold persisted.
  factory_cases ff sn;
    cbn; repeat (case_inner; cbn); intros H; try discriminate H;
    injection H as <-;
    first [ left; cbn; tauto
          | right; split;
            [ eexists; cbn; repeat (first [left; reflexivity | right])
            | split; reflexivity ] ].
Qed.

(** X3.  An error that [getBlock] returns is the error of the last call it
    made, handed on unchanged, or, when the fetch factory gave no fetcher,
    the not-found error of the store's [Get]. *)
Theorem getBlock_returns_the_error_it_met :
  forall (c : Cid) (b : BlockService) (ff : FetchFactory)
         (h : list Event) (sn : Session) (e : Err),
    let r := getBlock env c b ff h sn in
    value r = inl e ->
    exists pre ev,
      events r = pre ++ [ev] /\
      (errorOf ev = Some e \/
       (ev = CallFetchFactory None /\ In (CallGet c (inl e)) pre /\
        IsNotFound e = true)).
Proof.
  intros c b ff h sn e. run.
  factory_cases ff sn;
    cbn; repeat (case_inner; cbn); intros H; try discriminate H;
    injection H as <-;
    match goal with
    | |- exists pre ev, ?l = _ /\ _ =>
      exists (removelast l), (last l (CallFetchFactory None)); cbn
    end;
    (split; [reflexivity | ]); auto 6.
Qed.

(** X4.  When the store's [Put] has been called by [AddBlock], its answer
    is the result: an error is returned with nothing announced, and after
    an accepted [Put] the result is success whatever the exchange and the
    provider answer, with one notification of the block if the service has
    an exchange and one advertisement of its identifier if it has a
    provider. *)
Theorem AddBlock_result_is_the_answer_of_Put :
  forall (s : blockService) (o o' : Block) (perr : option Err)
         (h : list Event) (sn : Session),
    let r := AddBlock env s o h sn in
    In (CallPut o' perr) (events r) ->
    o' = o /\
    value r = perr /\
    notifications (events r)
      = match perr, exchange s with
        | None, Some _ => [[o]]
        | _, _ => []
        end /\
    advertised (events r)
      = match perr, provider s with
        | None, Some _ => [BlockCid o]
        | _, _ => []
        end.
Proof.
  intros s o o' perr h sn. run. unfold notifications, advertised.
  destruct (exchange s), (provider s), (checkFirst s);
    cbn; repeat (case_inner; cbn); intros H; in_cases H;
    inversion H; subst; repeat split; reflexivity.
Qed.

(** X5.  In write-through mode [AddBlock] never asks the store whether it
    has the block: for an accepted identifier it goes straight to the
    store's [Put], also when the block is there already. *)
Theorem AddBlock_write_through_always_writes :
  forall (s : blockService) (o : Block) (h : list Event) (sn : Session),
    let r := AddBlock env s o h sn in
    checkFirst s = false ->
    ValidateCid (allowlist s) (BlockCid o) = None ->
    asked (events r) = [] /\
    exists perr later,
      events r
      = CallValidateCid (BlockCid o) None :: CallPut o perr :: later.
Proof.
  intros s o h sn r Hc Hv. subst r. run. unfold asked.
  rewrite Hc, Hv. cbn.
  destruct (exchange s), (provider s);
    cbn; repeat (case_inner; cbn); split; eauto.
Qed.


(** *** More on getBlocks *)

Lemma filter_none {A} (p : A -> bool) l :
  (forall x, In x l -> p x = false) -> filter p l = [].
Proof.
  induction l as [|x l IH]; intros H; [reflexivity | ].
  cbn. rewrite (H x (or_introl eq_refl)). apply IH.
  intros y Hy. apply H. right. exact Hy.
Qed.

(* A projection of the log is empty on a log whose events all belong to a
   class, given by the hypothesis, that the projection does not read. *)
Ltac proj_nil H :=
  first [apply flat_map_nil | apply existsb_none | apply filter_none];
  let x := fresh "x" in
  let Hx := fresh "Hx" in
  intros x Hx; rewrite Forall_forall in H; specialize (H x Hx);
  destruct x; try discriminate H; try reflexivity;
  repeat match goal with
         | |- context [match ?y with _ => _ end] => destruct y
         end;
  try discriminate H; reflexivity.

(** X7.  The validation phase of [getBlocks] calls nothing but
    [ValidateCid], hands it every identifier of the input at least once,
    and on a non-empty input makes one call more than there are
    identifiers. *)
Theorem validationPhase_checks_every_identifier :
  forall (a : Allowlist) (ks : list Cid) (h : list Event) (sn : Session),
    let r := validationPhase a ks h sn in
    session r = sn /\
    events r = logValidate a (validated (events r)) /\
    incl ks (validated (events r)) /\
    length (validated (events r))
      = match ks with [] => 0 | _ :: _ => S (length ks) end.
Proof.
  intros a ks h sn r. subst r.
  destruct (first_invalid a ks) as [Hall | (pre & c & post & -> & Hpre & Hc)].
  - destruct ks as [|k ks] using rev_ind.
    + cbn. repeat split; auto; try (intros x []).
    + rewrite (validationPhase_all_valid a ks k h sn Hall).
      unfold events, session. cbn [fst snd].
      rewrite validated_app, !validated_logValidate.
      unfold logValidate.
      repeat split; auto.
      * rewrite !map_app. reflexivity.
      * intros x Hx. apply in_or_app. left. exact Hx.
      * rewrite !length_app. cbn. destruct ks; cbn; rewrite ?length_app;
          cbn; lia.
  - rewrite (validationPhase_invalid a pre c post h sn Hpre Hc).
    unfold events, session. cbn [fst snd].
    rewrite validated_app, !validated_logValidate.
    unfold logValidate.
    repeat split; auto.
    + rewrite !map_app. reflexivity.
    + intros x Hx. apply in_app_or in Hx. apply in_or_app.
      destruct Hx as [Hx | Hx]; [left; apply in_or_app; left; exact Hx | ].
      right. exact Hx.
    + rewrite !length_app. cbn. destruct pre; cbn; rewrite ?length_app;
        cbn; lia.
Qed.

Lemma NetRun_chain ex prov ne :
  NetRun ex prov ne ->
  exists l1 l2,
    persisted ne = emitted ne ++ l1 /\
    received ne = persisted ne ++ l2 /\
    length l1 + length l2 <= 1.
Proof.
  induction 1 as [ | | b e | b e | b e | b | b evs Hrun IH].
  - exists [], []. cbn. repeat split; auto.
  - exists [], []. cbn. repeat split; auto.
  - exists [], [b]. cbn. repeat split; auto.
  - exists [b], []. cbn. repeat split; auto.
  - exists [b], []. destruct ex; cbn; repeat split; auto.
  - exists [b], []. destruct ex, prov; cbn; repeat split; auto.
  - destruct IH as (l1 & l2 & Hp & Hr & Hl). exists l1, l2.
    unfold persisted, emitted, received in *.
    rewrite Hp in Hr.
    destruct ex, prov; cbn; rewrite ?Hr, ?Hp; repeat split; auto.
Qed.

(** The run of [getBlocks], phase by phase, with the factory call. *)
Lemma getBlocks_steps ks b ff h sn :
  let a := grabAllowlistFromBlockservice b in
  let r := getBlocks env ks b ff h sn in
  exists ve le,
    Forall (fun e => isValidateEv e = true) ve /\
    Forall (fun e => isLocalEv e = true) le /\
    (exists more, filter (valid a) ks = queried le ++ more) /\
    ((events r = ve ++ le /\ session r = sn /\ cancelled le = true /\
      exists blk, hits le = emitted le ++ [blk])
     \/
     (exists ne,
         let f := callFetchFactory ff ((h ++ ve) ++ le) sn in
         events r = ve ++ le ++ events f ++ ne /\
         session r = session f /\
         cancelled le = false /\
         queried le = filter (valid a) ks /\
         emitted le = hits le /\
         (ne = [] \/
          exists fx gr ne',
            value f = Some fx /\ failedGets le <> [] /\
            ne = CallFetchGetBlocks fx (failedGets le) gr :: ne' /\
            match gr with
            | inl _ => ne' = []
            | inr _ =>
              NetRun (bsExchange b) (grabProviderFromBlockservice b) ne'
            end))).
Proof.
  intros a r. subst r. unfold getBlocks. fold a.
  destruct (validationPhase_run a ks h sn) as [scanned Hv].
  rewrite (bind_eq _ _ _ _ _ _ _ Hv).
  pose proof (localPhase_run (filter (valid a) ks) []
                (h ++ logValidate a scanned) sn) as Hl.
  cbn zeta in Hl.
  destruct (localPhase env (filter (valid a) ks) []
              (h ++ logValidate a scanned) sn) as [[local le] s1] eqn:Hlp.
  rewrite (bind_eq _ _ _ _ _ _ _ Hlp).
  unfold value, events, session in Hl. cbn [fst snd] in Hl.
  destruct Hl as (-> & Hle & Hl).
  exists (logValidate a scanned), le.
  split. { unfold logValidate. apply Forall_map, Forall_forall. reflexivity. }
  split; [exact Hle | ].
  destruct local as [misses|].
  - destruct Hl as (Hq & Hm & He & Hc). cbn [app] in Hm. subst misses.
    split. { exists []. rewrite app_nil_r. auto. }
    right.
    destruct (callFetchFactory ff ((h ++ logValidate a scanned) ++ le) sn)
      as [[fr fe] s2] eqn:Hff.
    rewrite (bind_eq _ _ _ _ _ _ _ Hff).
    destruct (failedGets le) as [|m misses] eqn:Hmiss.
    + exists []. unfold ret, value, events, session. cbn [fst snd].
      rewrite !app_nil_r. repeat split; auto.
    + destruct fr as [f|].
      * unfold fetchGetBlocks. rewrite bind_call.
        destruct (fetch_GetBlocks env _ f (m :: misses)) as [e|rblocks].
        -- unfold ret, value, events, session. cbn [fst snd].
           exists [CallFetchGetBlocks f (m :: misses) (inl e)].
           repeat split; auto. right.
           exists f, (inl e), []. repeat split; auto. discriminate.
        -- match goal with
           | |- context [networkPhase env ?x ?p ?c ?hh ?ss] =>
             destruct (networkPhase_run x p c hh ss) as [Hs Hr];
             destruct (networkPhase env x p c hh ss) as [[v ne] s3]
           end.
           unfold value, events, session in *. cbn [fst snd] in *.
           exists (CallFetchGetBlocks f (m :: misses) (inr rblocks) :: ne).
           repeat split; auto. right.
           exists f, (inr rblocks), ne. repeat split; auto. discriminate.
      * exists []. unfold ret, value, events, session. cbn [fst snd].
        rewrite !app_nil_r. repeat split; auto.
  - destruct Hl as (Hq & Hb & Hc).
    split; [exact Hq | ]. left.
    unfold ret, value, events, session. cbn [fst snd].
    rewrite app_nil_r. repeat split; auto.
Qed.

(** What the log up to the batched fetch holds. *)
Lemma front_log ve le fe :
  Forall (fun e => isValidateEv e = true) ve ->
  Forall (fun e => isLocalEv e = true) le ->
  Forall (fun e => isFactoryEv e = true) fe ->
  hits (ve ++ le ++ fe) = hits le /\
  queried (ve ++ le ++ fe) = queried le /\
  failedGets (ve ++ le ++ fe) = failedGets le /\
  emitted (ve ++ le ++ fe) = emitted le /\
  received (ve ++ le ++ fe) = [] /\
  persisted (ve ++ le ++ fe) = [] /\
  fetchers (ve ++ le ++ fe) = fetchers fe /\
  filter isNewSession (ve ++ le ++ fe) = filter isNewSession fe /\
  filter isFetchGetBlocks (ve ++ le ++ fe) = filter isFetchGetBlocks fe /\
  filter isPut (ve ++ le ++ fe) = [] /\
  cancelled (ve ++ le ++ fe) = cancelled le.
Proof.
  intros Hve Hle Hfe.
  assert (filter isPut ve = []) as A10 by (clear Hle Hfe; proj_nil Hve).
  assert (cancelled ve = false) as A11 by (clear Hle Hfe; proj_nil Hve).
  assert (filter isPut le = []) as B10 by (clear Hve Hfe; proj_nil Hle).
  assert (filter isPut fe = []) as C10 by (clear Hve Hle; proj_nil Hfe).
  assert (cancelled fe = false) as C11 by (clear Hve Hle; proj_nil Hfe).
  assert (hits ve = []) as A1 by (clear Hle Hfe; proj_nil Hve).
  assert (queried ve = []) as A2 by (clear Hle Hfe; proj_nil Hve).
  assert (failedGets ve = []) as A3 by (clear Hle Hfe; proj_nil Hve).
  assert (emitted ve = []) as A4 by (clear Hle Hfe; proj_nil Hve).
  assert (received ve = []) as A5 by (clear Hle Hfe; proj_nil Hve).
  assert (persisted ve = []) as A6 by (clear Hle Hfe; proj_nil Hve).
  assert (fetchers ve = []) as A7 by (clear Hle Hfe; proj_nil Hve).
  assert (filter isNewSession ve = []) as A8
      by (clear Hle Hfe; proj_nil Hve).
  assert (filter isFetchGetBlocks ve = []) as A9
      by (clear Hle Hfe; proj_nil Hve).
  assert (received le = []) as B5 by (clear Hve Hfe; proj_nil Hle).
  assert (persisted le = []) as B6 by (clear Hve Hfe; proj_nil Hle).
  assert (fetchers le = []) as B7 by (clear Hve Hfe; proj_nil Hle).
  assert (filter isNewSession le = []) as B8
      by (clear Hve Hfe; proj_nil Hle).
  assert (filter isFetchGetBlocks le = []) as B9
      by (clear Hve Hfe; proj_nil Hle).
  assert (hits fe = []) as C1 by (clear Hve Hle; proj_nil Hfe).
  assert (queried fe = []) as C2 by (clear Hve Hle; proj_nil Hfe).
  assert (failedGets fe = []) as C3 by (clear Hve Hle; proj_nil Hfe).
  assert (emitted fe = []) as C4 by (clear Hve Hle; proj_nil Hfe).
  assert (received fe = []) as C5 by (clear Hve Hle; proj_nil Hfe).
  assert (persisted fe = []) as C6 by (clear Hve Hle; proj_nil Hfe).
  unfold hits, queried, failedGets, emitted, received, persisted, fetchers,
    cancelled in *.
  rewrite !flat_map_app, !filter_app, !existsb_app.
  rewrite A1, A2, A3, A4, A5, A6, A7, A8, A9, A10, A11, B5, B6, B7, B8, B9,
    B10, C1, C2, C3, C4, C5, C6, C10, C11, ?app_nil_r, ?orb_false_r.
  repeat split; reflexivity.
Qed.

(** What the log of the network loop does not hold. *)
Lemma network_log ne :
  Forall (fun e => isNetworkEv e = true) ne ->
  hits ne = [] /\ queried ne = [] /\ failedGets ne = [] /\
  fetchers ne = [] /\ filter isNewSession ne = [] /\
  filter isFetchGetBlocks ne = [].
Proof.
  intros Hne.
  repeat split; proj_nil Hne.
Qed.

Lemma factory_log ff h sn :
  let f := callFetchFactory ff h sn in
  Forall (fun e => isFactoryEv e = true) (events f) /\
  fetchers (events f) = [value f] /\
  filter isFetchGetBlocks (events f) = [].
Proof.
  intros f.
  destruct (callFetchFactory_run ff h sn) as [Hf | (ex & cx & Hf & _)];
    fold f in Hf; rewrite Hf; cbn;
    repeat split; repeat (constructor; [reflexivity | ]); constructor.
Qed.

(** The log of [getBlocks] as what comes before the network loop and the
    log of that loop. *)
Lemma getBlocks_shape ks b ff h sn :
  let a := grabAllowlistFromBlockservice b in
  let r := getBlocks env ks b ff h sn in
  exists ve le fe ne,
    events r = (ve ++ le ++ fe) ++ ne /\
    Forall (fun e => isValidateEv e = true) ve /\
    Forall (fun e => isLocalEv e = true) le /\
    Forall (fun e => isFactoryEv e = true) fe /\
    (exists more, filter (valid a) ks = queried le ++ more) /\
    ((cancelled le = true /\ fe = [] /\ ne = [] /\ session r = sn /\
      exists blk, hits le = emitted le ++ [blk])
     \/
     (let f := callFetchFactory ff ((h ++ ve) ++ le) sn in
      cancelled le = false /\ queried le = filter (valid a) ks /\
      emitted le = hits le /\ session r = session f /\
      fetchers fe = [value f] /\
      filter isNewSession fe = filter isNewSession (events f) /\
      ((fe = events f /\ ne = [])
       \/
       exists fx gr,
         value f = Some fx /\ failedGets le <> [] /\
         fe = events f ++ [CallFetchGetBlocks fx (failedGets le) gr] /\
         match gr with
         | inl _ => ne = []
         | inr _ => NetRun (bsExchange b) (grabProviderFromBlockservice b) ne
         end))).
Proof.
  intros a r.
  destruct (getBlocks_steps ks b ff h sn)
    as (ve & le & Hve & Hle & Hmore & Hcases).
  fold a r in Hmore, Hcases.
  exists ve, le.
  destruct Hcases as [(Hev & Hs & Hc & Hb) | (ne & Hx)].
  - exists [], []. rewrite !app_nil_r.
    repeat split; auto. left. repeat split; auto.
  - cbn zeta in Hx. destruct Hx as (Hev & Hs & Hc & Hq & He & Hne).
    destruct (factory_log ff ((h ++ ve) ++ le) sn) as (Hfc & Hfs & Hfg).
    destruct Hne as [-> | (fx & gr & ne' & Hfx & Hm & -> & Hgr)].
    + exists (events (callFetchFactory ff ((h ++ ve) ++ le) sn)), [].
      rewrite app_nil_r in Hev |- *.
      repeat split; auto. right. cbn zeta. repeat split; auto.
    + exists (events (callFetchFactory ff ((h ++ ve) ++ le) sn)
                ++ [CallFetchGetBlocks fx (failedGets le) gr]), ne'.
      split. { rewrite Hev, <- !app_assoc. reflexivity. }
      repeat split; auto.
      { apply Forall_app. split; [exact Hfc | ].
        constructor; [reflexivity | constructor]. }
      right. cbn zeta. repeat split; auto.
      { unfold fetchers in *. rewrite flat_map_app, Hfs. reflexivity. }
      { rewrite filter_app, app_nil_r. reflexivity. }
      right. exists fx, gr. repeat split; auto.
Qed.

(** X8.  What [getBlocks] emits, in order, is what the store's [Get]
    returned followed by the blocks from the fetcher whose [Put] the store
    accepted; and these are the blocks taken from the fetcher.  At most one
    block in all is short: the one in hand when the run was cancelled or a
    write-back step failed. *)
Theorem getBlocks_emits_hits_then_persisted_blocks :
  forall (ks : list Cid) (b : BlockService) (ff : FetchFactory)
         (h : list Event) (sn : Session),
    let r := getBlocks env ks b ff h sn in
    exists l1 l2,
      hits (events r) ++ persisted (events r) = emitted (events r) ++ l1 /\
      received (events r) = persisted (events r) ++ l2 /\
      length l1 + length l2 <= 1.
Proof.
  intros ks b ff h sn r.
  destruct (getBlocks_shape ks b ff h sn)
    as (ve & le & fe & ne & Hev & Hve & Hle & Hfe & _ & Hcases).
  fold r in Hev, Hcases. rewrite Hev.
  destruct (front_log ve le fe Hve Hle Hfe)
    as (Hh & _ & _ & Hem & Hre & Hpe & _).
  unfold hits, persisted, emitted, received in *.
  rewrite !(flat_map_app _ (ve ++ le ++ fe) ne), Hh, Hem, Hre, Hpe.
  cbn [app].
  destruct Hcases as [(_ & _ & -> & _ & blk & Hb)
                     | (_ & _ & He & _ & _ & _ & Hne)].
  - exists [blk], []. cbn. rewrite !app_nil_r. auto.
  - assert (Hnet : ne = [] \/
                   NetRun (bsExchange b) (grabProviderFromBlockservice b) ne).
    { destruct Hne as [(_ & ->) | (fx & [e|bl] & _ & _ & _ & Hgr)]; auto. }
    destruct Hnet as [-> | Hrun].
    + exists [], []. cbn. rewrite !app_nil_r. auto.
    + destruct (NetRun_chain _ _ _ Hrun) as (l1 & l2 & Hp & Hr & Hl).
      pose proof (NetRun_network_events _ _ _ Hrun) as Hn.
      destruct (network_log ne Hn) as (Hhn & _).
      unfold hits, persisted, emitted, received in *.
      exists l1, l2. rewrite Hhn, app_nil_r, He, Hr, Hp, app_assoc. auto.
Qed.

Lemma failedGets_queried evs : incl (failedGets evs) (queried evs).
Proof.
  induction evs as [|e evs IH]; [intros x [] | ].
  unfold failedGets, queried in *. cbn.
  destruct e as [| |c [err|blk]| | | | | | | | | | ]; cbn; auto.
  - apply incl_cons; [left; reflexivity | apply incl_tl; exact IH].
  - apply incl_tl. exact IH.
Qed.

(** X9.  [getBlocks] takes only identifiers of its input that the
    allow-list accepts to the store and to the fetcher: every identifier
    handed to the store's [Get] is such a one, and the fetcher's
    [GetBlocks], called once at most, is asked for exactly the identifiers
    whose [Get] failed. *)
Theorem getBlocks_hands_on_accepted_identifiers_only :
  forall (ks : list Cid) (b : BlockService) (ff : FetchFactory)
         (h : list Event) (sn : Session),
    let a := grabAllowlistFromBlockservice b in
    let r := getBlocks env ks b ff h sn in
    Forall (fun c => valid a c = true /\ In c ks) (queried (events r)) /\
    length (filter isFetchGetBlocks (events r)) <= 1 /\
    (forall fx m gr,
        In (CallFetchGetBlocks fx m gr) (events r) ->
        m = failedGets (events r) /\
        Forall (fun c => valid a c = true /\ In c ks) m).
Proof.
  intros ks b ff h sn a r.
  destruct (getBlocks_shape ks b ff h sn)
    as (ve & le & fe & ne & Hev & Hve & Hle & Hfe & (more & Hmore) & Hcases).
  fold a r in Hev, Hmore, Hcases.
  destruct (front_log ve le fe Hve Hle Hfe)
    as (_ & Hq & Hf & _ & _ & _ & _ & _ & Hg & _).
  assert (Hn : Forall (fun e => isNetworkEv e = true) ne).
  { destruct Hcases as [(_ & _ & -> & _) | (_ & _ & _ & _ & _ & _ & Hne)];
      [constructor | ].
    destruct Hne as [(_ & ->) | (fx & [e|bl] & _ & _ & _ & Hgr)];
      [constructor | subst ne; constructor | ].
    exact (NetRun_network_events _ _ _ Hgr). }
  destruct (network_log ne Hn) as (_ & Hqn & Hfn & _ & _ & Hgn).
  assert (Hqa : queried (events r) = queried le).
  { rewrite Hev. unfold queried in *.
    rewrite (flat_map_app _ (ve ++ le ++ fe) ne), Hq, Hqn, app_nil_r.
    reflexivity. }
  assert (Hfa : failedGets (events r) = failedGets le).
  { rewrite Hev. unfold failedGets in *.
    rewrite (flat_map_app _ (ve ++ le ++ fe) ne), Hf, Hfn, app_nil_r.
    reflexivity. }
  assert (Hga : filter isFetchGetBlocks (events r)
                = filter isFetchGetBlocks fe).
  { rewrite Hev, filter_app, Hg, Hgn, app_nil_r. reflexivity. }
  assert (Hacc : Forall (fun c => valid a c = true /\ In c ks) (queried le)).
  { apply Forall_forall. intros c Hc.
    assert (Hin : In c (filter (valid a) ks)).
    { rewrite Hmore. apply in_or_app. left. exact Hc. }
    apply filter_In in Hin. tauto. }
  assert (Hfg : filter isFetchGetBlocks fe = [] \/
                exists fx gr,
                  filter isFetchGetBlocks fe
                  = [CallFetchGetBlocks fx (failedGets le) gr]).
  { destruct Hcases as [(_ & -> & _) | (_ & _ & _ & _ & _ & _ & Hne)];
      [left; reflexivity | ].
    destruct (factory_log ff ((h ++ ve) ++ le) sn) as (_ & _ & Hfg).
    destruct Hne as [(-> & _) | (fx & gr & _ & _ & -> & _)];
      [left; exact Hfg | right].
    exists fx, gr. rewrite filter_app, Hfg. reflexivity. }
  split; [rewrite Hqa; exact Hacc | ].
  split.
  { rewrite Hga. destruct Hfg as [-> | (fx & gr & ->)]; cbn; lia. }
  intros fx m gr Hin.
  assert (Hin' : In (CallFetchGetBlocks fx m gr)
                    (filter isFetchGetBlocks (events r))).
  { apply filter_In. split; [exact Hin | reflexivity]. }
  rewrite Hga in Hin'. rewrite Hfa.
  destruct Hfg as [Hnil | (fx' & gr' & Hone)].
  - rewrite Hnil in Hin'. destruct Hin'.
  - rewrite Hone in Hin'. destruct Hin' as [Heq | []].
    injection Heq as _ <- _. split; [reflexivity | ].
    apply Forall_forall. intros c Hc.
    rewrite Forall_forall in Hacc. apply Hacc.
    apply (failedGets_queried le). exact Hc.
Qed.

(** X10.  With a fetch factory that gives no fetcher (a service without
    exchange), [getBlocks] stays local: nothing is asked of a fetcher,
    nothing is written to the store, and unless a send is cancelled every
    accepted identifier is looked up and exactly the blocks found are
    emitted. *)
Theorem getBlocks_without_fetcher_stays_local :
  forall (ks : list Cid) (b : BlockService) (ff : FetchFactory)
         (h : list Event) (sn : Session),
    let a := grabAllowlistFromBlockservice b in
    let r := getBlocks env ks b ff h sn in
    (forall h', value (callFetchFactory ff h' sn) = None) ->
    filter isFetchGetBlocks (events r) = [] /\
    received (events r) = [] /\
    filter isPut (events r) = [] /\
    (cancelled (events r) = false ->
     queried (events r) = filter (valid a) ks /\
     emitted (events r) = hits (events r)).
Proof.
  intros ks b ff h sn a r Hoff.
  destruct (getBlocks_shape ks b ff h sn)
    as (ve & le & fe & ne & Hev & Hve & Hle & Hfe & _ & Hcases).
  fold a r in Hev, Hcases.
  assert (Hne : ne = [] /\ filter isFetchGetBlocks fe = [] /\
                (cancelled le = false ->
                 queried le = filter (valid a) ks /\ emitted le = hits le)).
  { destruct Hcases as [(Hc & -> & -> & _)
                       | (Hc & Hq & He & _ & _ & _ & Hne)].
    - split; [reflexivity | split; [reflexivity | ]].
      intros H. rewrite Hc in H. discriminate H.
    - destruct Hne as [(-> & ->) | (fx & gr & Hfx & _)].
      + destruct (factory_log ff ((h ++ ve) ++ le) sn) as (_ & _ & Hfg).
        auto.
      + rewrite Hoff in Hfx. discriminate Hfx. }
  destruct Hne as (-> & Hg & Hloc).
  rewrite app_nil_r in Hev. rewrite Hev.
  destruct (front_log ve le fe Hve Hle Hfe)
    as (-> & -> & _ & -> & -> & _ & _ & _ & -> & -> & ->).
  auto.
Qed.

(** X11.  When the fetcher's [GetBlocks] itself fails, the run of
    [getBlocks] ends there: that call is its last event, nothing is taken
    from a channel or written, and what has been emitted is what the store
    had. *)
Theorem getBlocks_ends_when_the_fetch_cannot_start :
  forall (ks : list Cid) (b : BlockService) (ff : FetchFactory)
         (h : list Event) (sn : Session) (fx : Fetcher) (m : list Cid)
         (e : Err),
    let r := getBlocks env ks b ff h sn in
    In (CallFetchGetBlocks fx m (inl e)) (events r) ->
    (exists pre, events r = pre ++ [CallFetchGetBlocks fx m (inl e)]) /\
    received (events r) = [] /\
    filter isPut (events r) = [] /\
    emitted (events r) = hits (events r).
Proof.
  intros ks b ff h sn fx m e r Hin.
  destruct (getBlocks_shape ks b ff h sn)
    as (ve & le & fe & ne & Hev & Hve & Hle & Hfe & _ & Hcases).
  fold r in Hev, Hcases.
  destruct (front_log ve le fe Hve Hle Hfe)
    as (Hh & _ & _ & Hem & Hre & _ & _ & _ & Hg & Hp & _).
  assert (Hn : Forall (fun e => isNetworkEv e = true) ne).
  { destruct Hcases as [(_ & _ & -> & _) | (_ & _ & _ & _ & _ & _ & Hne)];
      [constructor | ].
    destruct Hne as [(_ & ->) | (fx' & [e'|bl] & _ & _ & _ & Hgr)];
      [constructor | subst ne; constructor | ].
    exact (NetRun_network_events _ _ _ Hgr). }
  destruct (network_log ne Hn) as (_ & _ & _ & _ & _ & Hgn).
  assert (Hin' : In (CallFetchGetBlocks fx m (inl e))
                    (filter isFetchGetBlocks fe)).
  { rewrite <- (app_nil_r (filter isFetchGetBlocks fe)), <- Hgn, <- Hg,
      <- filter_app, <- Hev.
    apply filter_In. split; [exact Hin | reflexivity]. }
  destruct Hcases as [(_ & -> & _) | (_ & _ & He & _ & _ & _ & Hne)];
    [destruct Hin' | ].
  destruct (factory_log ff ((h ++ ve) ++ le) sn) as (_ & _ & Hfg).
  destruct Hne as [(-> & _) | (fx' & gr & _ & _ & -> & Hgr)].
  { rewrite Hfg in Hin'. destruct Hin'. }
  rewrite filter_app, Hfg in Hin'. destruct Hin' as [Heq | []].
  injection Heq as -> <- ->. subst ne.
  rewrite app_nil_r in Hev. rewrite Hev.
  unfold received, emitted, hits in *. rewrite Hre, Hp, Hem, Hh.
  repeat split; auto.
  eexists. rewrite !app_assoc. reflexivity.
Qed.

(** *** Sessions *)

Lemma getBlock_factory c b ff h sn :
  let r := getBlock env c b ff h sn in
  oneFactoryCall ff sn (events r) (session r).
Proof.
  intros r. subst r. unfold oneFactoryCall, getBlock, validate.
  rewrite bind_call.
  destruct (ValidateCid (grabAllowlistFromBlockservice b) c);
    [left; cbn; auto | ].
  unfold Get. rewrite bind_call.
  destruct (bs_Get env _ c) as [e|blk]; [ | left; cbn; auto].
  destruct (IsNotFound e); [ | left; cbn; auto].
  right.
  exists ((h ++ [CallValidateCid c None]) ++ [CallGet c (inl e)]).
  destruct (factory_log ff ((h ++ [CallValidateCid c None])
                              ++ [CallGet c (inl e)]) sn) as (_ & Hfs & _).
  destruct (callFetchFactory ff _ sn) as [[fr fe] s2] eqn:Hff.
  rewrite (bind_eq _ _ _ _ _ _ _ Hff).
  unfold value, events, session in Hfs. cbn [fst snd] in Hfs.
  unfold fetchGetBlock, Put, NotifyNewBlocks, Provide, bind, call, ret,
    value, events, session, fetchers in *.
  cbn. repeat (case_inner; cbn);
    rewrite ?flat_map_app, ?filter_app, ?Hfs; cbn; rewrite ?app_nil_r; auto.
Qed.

Lemma getBlocks_factory ks b ff h sn :
  let r := getBlocks env ks b ff h sn in
  oneFactoryCall ff sn (events r) (session r).
Proof.
  intros r.
  destruct (getBlocks_shape ks b ff h sn)
    as (ve & le & fe & ne & Hev & Hve & Hle & Hfe & _ & Hcases).
  fold r in Hev, Hcases.
  destruct (front_log ve le fe Hve Hle Hfe)
    as (_ & _ & _ & _ & _ & _ & Hfs & Hns & _).
  assert (Hn : Forall (fun e => isNetworkEv e = true) ne).
  { destruct Hcases as [(_ & _ & -> & _) | (_ & _ & _ & _ & _ & _ & Hne)];
      [constructor | ].
    destruct Hne as [(_ & ->) | (fx' & [e'|bl] & _ & _ & _ & Hgr)];
      [constructor | subst ne; constructor | ].
    exact (NetRun_network_events _ _ _ Hgr). }
  destruct (network_log ne Hn) as (_ & _ & _ & Hfn & Hnn & _).
  assert (Hf : fetchers (events r) = fetchers fe).
  { rewrite Hev. unfold fetchers in *.
    rewrite (flat_map_app _ (ve ++ le ++ fe) ne), Hfs, Hfn, app_nil_r.
    reflexivity. }
  assert (Hs : filter isNewSession (events r) = filter isNewSession fe).
  { rewrite Hev, filter_app, Hns, Hnn, app_nil_r. reflexivity. }
  unfold oneFactoryCall. rewrite Hf, Hs.
  destruct Hcases as [(_ & -> & _ & Hsn & _)
                     | (_ & _ & _ & Hsn & Hfr & Hnew & _)].
  - left. auto.
  - right. exists ((h ++ ve) ++ le). auto.
Qed.

Lemma grabSession_step ctx b h sn :
  sessionState ctx b sn ->
  let f := callFetchFactory grabSession h sn in
  value f = sessionFetcher b /\
  sessionState ctx b (session f) /\
  createSession (session f) = true /\
  (createSession sn = true ->
   session f = sn /\ filter isNewSession (events f) = []) /\
  (createSession sn = false ->
   filter isNewSession (events f) = sessionSetup ctx b).
Proof.
  unfold sessionState, sessionFetcher, sessionSetup.
  intros (Hb & [(Hc & Hs & Hx) | (Hc & Hs & Hx)]);
    unfold callFetchFactory, runGrabSession, bind, call, ret, value, events,
      session; cbn; rewrite Hc, ?Hb; cbn.
  - destruct (bsExchange b) as [[|]|] eqn:Hex; cbn; rewrite ?Hb, ?Hex, ?Hx;
      repeat split; auto; try discriminate.
  - rewrite Hs. repeat split; auto. discriminate.
Qed.

(** One call on a session either leaves it as it is, without a
    [NewSession] call, or sets it up. *)
Lemma session_step ctx b sn evs sn' :
  sessionState ctx b sn ->
  oneFactoryCall grabSession sn evs sn' ->
  sessionState ctx b sn' /\
  Forall (fun fr => fr = sessionFetcher b) (fetchers evs) /\
  (fetchers evs <> [] -> createSession sn' = true) /\
  ((sn' = sn /\ filter isNewSession evs = []) \/
   (createSession sn = false /\ createSession sn' = true /\
    filter isNewSession evs = sessionSetup ctx b)).
Proof.
  unfold oneFactoryCall.
  intros Hst [(-> & Hf & Hn) | (h' & -> & Hf & Hn)].
  - rewrite Hf.
    split; [exact Hst | ]. split; [constructor | ].
    split; [intros H; contradiction | left; auto].
  - destruct (grabSession_step ctx b h' sn Hst)
      as (Hv & Hst' & Hc' & Hold & Hnew).
    rewrite Hf, Hn, Hv.
    split; [exact Hst' | ]. split; [constructor; auto | ].
    split; [intros _; exact Hc' | ].
    destruct (createSession sn) eqn:Hc.
    + left. destruct (Hold eq_refl). auto.
    + right. auto.
Qed.

Lemma runSession_run ctx b calls :
  forall h sn,
    sessionState ctx b sn ->
    let r := runSession env calls h sn in
    sessionState ctx b (session r) /\
    Forall (fun fr => fr = sessionFetcher b) (fetchers (events r)) /\
    (createSession sn = true -> session r = sn) /\
    (fetchers (events r) <> [] -> createSession (session r) = true) /\
    (filter isNewSession (events r) = [] \/
     (createSession sn = false /\
      filter isNewSession (events r) = sessionSetup ctx b)).
Proof.
  induction calls as [|call calls IH]; intros h sn Hst r; subst r.
  - cbn. split; [exact Hst | ]. split; [constructor | ].
    split; [reflexivity | ]. split; [intros H; contradiction | left; auto].
  - assert (Hop : exists (A : Type) (op : M A),
               runSession env (call :: calls) h sn
               = bind op (fun _ => runSession env calls) h sn /\
               oneFactoryCall grabSession sn (events (op h sn))
                 (session (op h sn)) /\
               bs sn = b).
    { destruct Hst as [Hb _]. destruct call as [c | ks].
      - exists _, (Session_GetBlock env c). split; [reflexivity | ].
        split; [ | exact Hb]. apply getBlock_factory.
      - exists _, (Session_GetBlocks env ks). split; [reflexivity | ].
        split; [ | exact Hb]. apply getBlocks_factory. }
    destruct Hop as (A & op & -> & Hone & _).
    rewrite bind_run.
    destruct (session_step ctx b sn _ _ Hst Hone)
      as (Hst1 & Hf1 & Hc1 & Hn1).
    specialize (IH (h ++ events (op h sn)) (session (op h sn)) Hst1).
    cbn zeta in IH. destruct IH as (Hst2 & Hf2 & Hk2 & Hc2 & Hn2).
    unfold fetchers, value, events, session in *. cbn [fst snd] in *.
    rewrite flat_map_app, filter_app.
    split; [exact Hst2 | ].
    split; [apply Forall_app; split; assumption | ].
    split.
    { intros Hc. destruct Hn1 as [(Heq & _) | (Hcf & _)];
        [ | congruence].
      rewrite Hk2; [exact Heq | rewrite Heq; exact Hc]. }
    split.
    { intros Hne.
      destruct (flat_map _ (snd (fst (op h sn)))) eqn:Hfe.
      - apply Hc2. exact Hne.
      - rewrite Hk2; apply Hc1; discriminate. }
    destruct Hn1 as [(Heq & ->) | (Hcf & Hct & ->)].
    + cbn [app]. rewrite Heq in Hn2 |- *. exact Hn2.
    + destruct Hn2 as [-> | (Hcontra & _)]; [ | congruence].
      rewrite app_nil_r. right. auto.
Qed.

(** X12.  However many calls are made on a session, the exchange's
    [NewSession] is called once at most, with the context the session was
    created with, and only on an exchange that supports sessions; every
    invocation of the fetch factory gives the same fetcher; and once the
    factory has been invoked the session is set up and no longer holds the
    context. *)
Theorem session_is_set_up_once :
  forall (calls : list SessionCall) (ctx : Ctx) (b : BlockService)
         (h : list Event),
    let r := runSession env calls h (NewSession ctx b) in
    length (filter isNewSession (events r)) <= 1 /\
    (forall ex cx,
        In (CallNewSession ex cx) (events r) ->
        ex = SessionExchange /\ cx = Some ctx /\
        bsExchange b = Some SessionExchange) /\
    Forall (fun fr => fr = sessionFetcher b) (fetchers (events r)) /\
    (fetchers (events r) <> [] ->
     createSession (session r) = true /\
     ses (session r) = sessionFetcher b /\
     sesctx (session r) = None).
Proof.
  intros calls ctx b h r.
  assert (Hst : sessionState ctx b (NewSession ctx b)).
  { split; [reflexivity | left]. auto. }
  destruct (runSession_run ctx b calls h _ Hst)
    as (Hst' & Hf & _ & Hc & Hn).
  fold r in Hst', Hf, Hc, Hn.
  assert (Hnew : filter isNewSession (events r) = [] \/
                 filter isNewSession (events r) = sessionSetup ctx b).
  { destruct Hn as [Hn | (_ & Hn)]; auto. }
  split.
  { destruct Hnew as [-> | ->]; cbn; [lia | ].
    unfold sessionSetup. destruct (bsExchange b) as [[|]|]; cbn; lia. }
  split.
  { intros ex cx Hin.
    assert (Hin' : In (CallNewSession ex cx)
                      (filter isNewSession (events r))).
    { apply filter_In. split; [exact Hin | reflexivity]. }
    destruct Hnew as [Hnew | Hnew]; rewrite Hnew in Hin';
      [destruct Hin' | ].
    unfold sessionSetup in Hin'.
    destruct (bsExchange b) as [[|]|]; cbn in Hin';
      try contradiction.
    destruct Hin' as [Heq | []]. injection Heq as <- <-. auto. }
  split; [exact Hf | ].
  intros Hne. specialize (Hc Hne).
  destruct Hst' as (_ & [(Hcf & _) | (_ & Hs & Hx)]); [congruence | auto].
Qed.

End Properties.

(** ** The properties at work on the in-memory instance *)

Module DemoRuns.

Import Demo.

(** C1 at work: identifier 200 is not on the default allow-list. *)
Lemma C1_witness :
  let env := memEnv [(200, 7)] [(200, 7)] in
  let sn := freshSession online in
  ValidateCid (allowlist online) 200 = Some ErrRejected /\
  AddBlock env online (200, 7) [] sn
    = (Some ErrRejected, [CallValidateCid 200 (Some ErrRejected)], sn) /\
  getBlock env 200 (asBlockService online) (getExchangeFetcher online) [] sn
    = (inl ErrRejected, [CallValidateCid 200 (Some ErrRejected)], sn).
Proof.
  split; [reflexivity | ].
  apply (C1_rejected_identifier_touches_nothing (X:=demoX)
           (memEnv [(200, 7)] [(200, 7)]) online (200, 7) 200
           (asBlockService online) (getExchangeFetcher online)
           ErrRejected ErrRejected [] (freshSession online));
    reflexivity.
Defined.

(** C2 at work: the one accepted identifier of the input is validated
    twice. *)
Lemma C2_witness :
  Forall (fun k => valid (X:=demoX) DefaultAllowlist k = true) [] /\
  validated (events (validationPhase (X:=demoX) DefaultAllowlist [1] []
                       (freshSession online)))
    = [1; 1].
Proof.
  split; [constructor | ].
  apply (proj2 (C2_validation_scans (X:=demoX) DefaultAllowlist [] 1 [] []
                  (freshSession online) (Forall_nil _)));
    reflexivity.
Defined.

(** C3 at work: the store fails to read block 2, which the exchange then
    delivers; and a store that cannot write block 2 ends the run. *)
Lemma C3_witness :
  let env1 := brokenGet 2 (memEnv [(1, 10); (2, 20)] [(2, 20)]) in
  let env2 := brokenPut 2 (memEnv [(1, 10)] [(2, 20); (3, 30)]) in
  let sn := freshSession online in
  let r1 := GetBlocks env1 online [2; 1] [] sn in
  let r2 := GetBlocks env2 online [1; 2; 3] [] sn in
  (In (CallGet 2 (inl ErrIO)) (events r1) /\
   queried (events r1) = [2; 1] /\
   In (CallFetchGetBlocks (ExchangeFetcher SessionExchange) [2]
         (inr [(2, 20)])) (events r1) /\
   emitted (events r1) = [(1, 10); (2, 20)]) /\
  (In (CallPut (2, 20) (Some ErrIO)) (events r2) /\
   emitted (events r2) = [(1, 10)] /\
   hits (events r2) ++ received (events r2) = emitted (events r2) ++ [(2, 20)]).
Proof.
  intros env1 env2 sn r1 r2. split.
  - destruct (C3_store_errors_in_getBlocks (X:=demoX) env1 [2; 1] (asBlockService online)
                (getExchangeFetcher online) [] sn) as (Hq & Hm & _).
    split; [vm_compute; tauto | ].
    split; [apply Hq; reflexivity | ].
    split; [ | reflexivity].
    destruct (Hm 2 ErrIO (ExchangeFetcher SessionExchange)) as (_ & gr & Hgr);
      [vm_compute; tauto | vm_compute; tauto | ].
    vm_compute. tauto.
  - destruct (C3_store_errors_in_getBlocks (X:=demoX) env2 [1; 2; 3]
                (asBlockService online) (getExchangeFetcher online) [] sn)
      as (_ & _ & Hp).
    split; [vm_compute; tauto | ]. split; [reflexivity | ].
    apply (Hp (firstn 11 (events r2)) (2, 20) ErrIO []).
    reflexivity.
Defined.

(** C4 at work: the exchange refuses the notification about block 2, the
    first of two blocks it delivered; neither is emitted. *)
Lemma C4_witness :
  let env := brokenNotify 2 (memEnv [(1, 10)] [(2, 20); (3, 30)]) in
  let r := GetBlocks env online [1; 2; 3] [] (freshSession online) in
  let ev := CallNotifyNewBlocks [(2, 20)] (Some ErrIO) in
  events r = firstn 12 (events r) ++ ev :: [] /\
  isAnnounceFailure ev = true /\
  emitted (events r) = [(1, 10)] /\
  exists blk,
    concerns ev blk /\
    In (CallPut blk None) (firstn 12 (events r)) /\
    hits (events r) ++ received (events r) = emitted (events r) ++ [blk].
Proof.
  intros env r ev.
  split; [reflexivity | ]. split; [reflexivity | ]. split; [reflexivity | ].
  apply (C4_failed_announcement_ends_the_sequence (X:=demoX) env [1; 2; 3]
           (asBlockService online) (getExchangeFetcher online) []
           (freshSession online) (firstn 12 (events r)) ev []);
    reflexivity.
Defined.

(** The claim C5 as the specification words it fails on a service built
    without a provider: block 2 is accepted, missing locally and fetched
    from the exchange, and it is returned after one [Put] and one
    notification, but nothing is advertised. *)
Lemma C5_counterexample :
  let env := memEnv [] [(2, 20)] in
  let r := GetBlock env online 2 [] (freshSession online) in
  ValidateCid (allowlist online) 2 = None /\
  In (CallGet 2 (inl ErrNotFound)) (events r) /\
  In (CallFetchGetBlock (ExchangeFetcher SessionExchange) 2 (inr (2, 20)))
     (events r) /\
  ~ (length (filter isPut (events r)) = 1 /\
     length (filter isNotify (events r)) = 1 /\
     length (filter isProvide (events r)) = 1 /\
     value r = inr (2, 20)).
Proof.
  intros env r.
  split; [reflexivity | ]. split; [vm_compute; tauto | ].
  split; [vm_compute; tauto | ].
  intros (_ & _ & H & _). vm_compute in H. discriminate H.
Defined.

(** C5 as amended at work, on a service with an exchange and a provider. *)
Lemma C5_witness :
  let env := memEnv [] [(2, 20)] in
  let r := GetBlock env providing 2 [] (freshSession providing) in
  In (CallFetchGetBlock (ExchangeFetcher SessionExchange) 2 (inr (2, 20)))
     (events r) /\
  filter isPut (events r) = [CallPut (2, 20) None] /\
  value r = inr (2, 20) /\
  filter isNotify (events r) = [CallNotifyNewBlocks [(2, 20)] None] /\
  filter isProvide (events r) = [CallProvide 2 None].
Proof.
  intros env r.
  assert (Hin : In (CallFetchGetBlock (ExchangeFetcher SessionExchange) 2
                      (inr (2, 20))) (events r)) by (vm_compute; tauto).
  split; [exact Hin | ]. split; [reflexivity | ].
  exact (proj2 (C5_fetched_block_is_cached_and_announced (X:=demoX) env 2
                  (asBlockService providing) (getExchangeFetcher providing)
                  (ExchangeFetcher SessionExchange) (2, 20) []
                  (freshSession providing) Hin) eq_refl eq_refl).
Defined.

(** C6 at work: block 3 is in the store already; block 4 is added twice to
    a store that does not hold it. *)
Lemma C6_witness :
  let env := memEnv [(3, 30)] [] in
  let sn := freshSession providing in
  ValidateCid (allowlist providing) 3 = None /\
  checkFirst providing = true /\
  AddBlock env providing (3, 30) [] sn
    = (None, [CallValidateCid 3 None; CallHas 3 true None], sn) /\
  value (addTwice env providing (4, 40) [] sn) = (None, None) /\
  filter isPut (events (addTwice env providing (4, 40) [] sn))
    = [CallPut (4, 40) None] /\
  length (filter isNotify (events (addTwice env providing (4, 40) [] sn)))
    = 1 /\
  length (filter isProvide (events (addTwice env providing (4, 40) [] sn)))
    = 1.
Proof.
  intros env sn.
  split; [reflexivity | ]. split; [reflexivity | ]. split.
  - exact (proj1 (C6_check_before_write_is_idempotent (X:=demoX) env
                    providing (3, 30) [] sn eq_refl eq_refl) None eq_refl).
  - exact (proj2 (C6_check_before_write_is_idempotent (X:=demoX) env
                    providing (4, 40) [] sn eq_refl eq_refl)
             eq_refl eq_refl eq_refl).
Defined.

(** C7 at work: block 1 is in the store, so a session's [GetBlocks] of it
    misses nothing; the factory is invoked all the same and the session is
    set up, with a [NewSession] call on the exchange. *)
Lemma C7_witness :
  let env := memEnv [(1, 10)] [] in
  let sn := freshSession online in
  let r := Session_GetBlocks env [1] [] sn in
  cancelled (events r) = false /\
  failedGets (events r) = [] /\
  emitted (events r) = [(1, 10)] /\
  createSession sn = false /\
  In (CallNewSession SessionExchange (Some tt)) (events r) /\
  (exists fr, In (CallFetchFactory fr) (events r)) /\
  createSession (session r) = true.
Proof.
  intros env sn r.
  split; [reflexivity | ]. split; [reflexivity | ]. split; [reflexivity | ].
  split; [reflexivity | ]. split; [vm_compute; tauto | ].
  destruct (proj1 (C7_fetch_factory_runs_after_every_local_phase (X:=demoX)
                     env [1] 1 (bs sn) grabSession [] sn) eq_refl)
    as [Hfr Hs].
  split; [exact Hfr | exact (Hs eq_refl)].
Defined.

(** C8 at work: an offline service and a block the store does not hold. *)
Lemma C8_witness :
  let env := memEnv [] [(2, 20)] in
  let r := GetBlock env offline 2 [] (freshSession offline) in
  ValidateCid (allowlist offline) 2 = None /\
  bs_Get env [CallValidateCid 2 None] 2 = inl ErrNotFound /\
  IsNotFound ErrNotFound = true /\
  value r = inl ErrNotFound /\
  events r = [CallValidateCid 2 None; CallGet 2 (inl ErrNotFound);
              CallFetchFactory None].
Proof.
  intros env r.
  split; [reflexivity | ]. split; [reflexivity | ]. split; [reflexivity | ].
  apply (C8_not_found_without_exchange (X:=demoX) env 2
           (asBlockService offline) (getExchangeFetcher offline) ErrNotFound
           [] (freshSession offline));
    reflexivity.
Defined.

(** C10 at work: rejected identifiers 200 and 300 are dropped and the
    accepted ones keep their input order; 3 and 1 are local hits. *)
Lemma C10_witness :
  let env := memEnv [(1, 10); (3, 30)] [(2, 20)] in
  let ks := [3; 200; 2; 300; 1] in
  let r := GetBlocks env online ks [] (freshSession online) in
  filter (valid (allowlist online)) ks = [3; 2; 1] /\
  value (validationPhase (allowlist online) ks [] (freshSession online))
    = [3; 2; 1] /\
  queried (events r) = [3; 2; 1] /\
  hits (events r) = [(3, 30); (1, 10)] /\
  emitted (events r) = [(3, 30); (1, 10); (2, 20)].
Proof.
  intros env ks r.
  destruct (C10_accepted_identifiers_keep_their_order (X:=demoX) env ks
              (asBlockService online) (getExchangeFetcher online) []
              (freshSession online)) as (Hv & (more & Hq & Hm) & _).
  split; [reflexivity | ]. split; [exact Hv | ].
  split; [ | split; reflexivity].
  rewrite (Hm eq_refl), app_nil_r in Hq. symmetry. exact Hq.
Defined.

End DemoRuns.

(** ** Properties of the options and of the batch write path *)

Section BatchProperties.

Context {X : Externals}.
Variable env : BatchEnv.

(** *** Options *)

Lemma options_run opts :
  Forall ProvidedOption opts ->
  forall s,
    let s' := fold_left (fun service (opt : Option) => opt service) opts s in
    exchange s' = exchange s /\
    (checkFirst s = false -> checkFirst s' = false) /\
    (In WriteThrough opts -> checkFirst s' = false) /\
    ((forall o, In o opts -> o <> WriteThrough) ->
     checkFirst s' = checkFirst s) /\
    ((forall a, ~ In (WithAllowlist a) opts) -> allowlist s' = allowlist s) /\
    ((forall p, ~ In (WithProvider p) opts) -> provider s' = provider s).
Proof.
  induction 1 as [|opt opts Hopt _ IH]; intros s s'; subst s'.
  - cbn. repeat split; auto. intros [].
  - cbn [fold_left]. specialize (IH (opt s)). cbn zeta in IH.
    destruct IH as (He & Hf & Hw & Hk & Ha & Hp).
    rewrite He.
    split; [destruct Hopt; reflexivity | ].
    split; [intros Hc; apply Hf; destruct Hopt; cbn; auto | ].
    split.
    { intros [-> | Hin]; [apply Hf; reflexivity | apply Hw; exact Hin]. }
    split.
    { intros Hno. rewrite Hk.
      - destruct Hopt; cbn; auto.
        exfalso. apply (Hno WriteThrough); [left | ]; reflexivity.
      - intros o Ho. apply Hno. right. exact Ho. }
    split.
    { intros Hno. rewrite Ha.
      - destruct Hopt; cbn; auto.
        exfalso. apply (Hno a). left. reflexivity.
      - intros a Hin. apply (Hno a). right. exact Hin. }
    intros Hno. rewrite Hp.
    + destruct Hopt; cbn; auto.
      exfalso. apply (Hno p). left. reflexivity.
    + intros p Hin. apply (Hno p). right. exact Hin.
Qed.

(** X13.  A service that [New] builds from the package's own options has
    the exchange it was given.  It checks before writing unless
    [WriteThrough] is among the options, and no later option brings the
    check back.  Without [WithAllowlist] it uses the default allow-list,
    and without [WithProvider] it has no provider. *)
Theorem New_applies_the_options :
  forall (ex : option Exchange) (opts : list Option),
    Forall ProvidedOption opts ->
    let s := New ex opts in
    exchange s = ex /\
    (In WriteThrough opts -> checkFirst s = false) /\
    ((forall o, In o opts -> o <> WriteThrough) -> checkFirst s = true) /\
    ((forall a, ~ In (WithAllowlist a) opts) ->
     allowlist s = DefaultAllowlist) /\
    ((forall p, ~ In (WithProvider p) opts) -> provider s = None).
Proof.
  intros ex opts Hopts s. subst s. unfold New.
  destruct (options_run opts Hopts
              {| allowlist := DefaultAllowlist; exchange := ex;
                 provider := None; checkFirst := true |})
    as (He & _ & Hw & Hk & Ha & Hp).
  repeat split; auto.
Qed.

(** *** AddBlocks *)

Lemma bindW_run {A B} (m : W A) (k : A -> W B) h :
  bindW m k h
  = (fst (k (fst (m h)) (h ++ snd (m h))),
     snd (m h) ++ snd (k (fst (m h)) (h ++ snd (m h)))).
Proof.
  unfold bindW. destruct (m h) as [a e1]. cbn.
  destruct (k a (h ++ e1)) as [b e2]. reflexivity.
Qed.

Lemma bindW_call {R B} (answer : list Call -> R) (mk : R -> Call)
    (k : R -> W B) h :
  bindW (callW answer mk) k h
  = (fst (k (answer h) (h ++ [mk (answer h)])),
     mk (answer h) :: snd (k (answer h) (h ++ [mk (answer h)]))).
Proof. rewrite bindW_run. reflexivity. Qed.

(* A projection of the batch log is empty on a log whose calls all belong
   to a class, given by the hypothesis, that the projection does not
   read. *)
Ltac calls_nil H :=
  first [apply flat_map_nil | apply existsb_none];
  let x := fresh "x" in
  let Hx := fresh "Hx" in
  intros x Hx; rewrite Forall_forall in H; specialize (H x Hx);
  destruct x as [[]|]; try discriminate H; try reflexivity;
  repeat match goal with
         | |- context [match ?y with _ => _ end] => destruct y
         end;
  try discriminate H; reflexivity.

Lemma basics_app l1 l2 : basics (l1 ++ l2) = basics l1 ++ basics l2.
Proof. apply flat_map_app. Qed.

Lemma validateAll_accepts a blks :
  Forall (fun b => valid a (BlockCid b) = true) blks ->
  forall h,
    validateAll a blks h
    = (None, map Basic (logValidate a (map BlockCid blks))).
Proof.
  induction 1 as [|b blks Hb _ IH]; intros h; [reflexivity | ].
  cbn [validateAll]. rewrite bindW_call.
  apply valid_None in Hb. rewrite Hb, IH. cbn. rewrite Hb. reflexivity.
Qed.

Lemma validateAll_rejects a pre b post e :
  Forall (fun b => valid a (BlockCid b) = true) pre ->
  ValidateCid a (BlockCid b) = Some e ->
  forall h,
    validateAll a (pre ++ b :: post) h
    = (Some e, map Basic (logValidate a (map BlockCid (pre ++ [b])))).
Proof.
  intros Hpre Hb. induction Hpre as [|x pre Hx _ IH]; intros h.
  - cbn [app validateAll]. rewrite bindW_call, Hb. cbn. rewrite Hb.
    reflexivity.
  - cbn [app validateAll]. rewrite bindW_call.
    apply valid_None in Hx. rewrite Hx, IH. cbn. rewrite Hx. reflexivity.
Qed.

(** A batch is accepted as a whole or has a first rejected block. *)
Lemma first_rejected a (blks : list Block) :
  Forall (fun b => valid a (BlockCid b) = true) blks \/
  exists pre b post e,
    blks = pre ++ b :: post /\
    Forall (fun b => valid a (BlockCid b) = true) pre /\
    ValidateCid a (BlockCid b) = Some e.
Proof.
  induction blks as [|x blks IH]; [left; constructor | ].
  destruct (ValidateCid a (BlockCid x)) as [e|] eqn:Hx.
  - right. exists [], x, blks, e. repeat split; auto.
  - apply valid_None in Hx.
    destruct IH as [IH | (pre & b & post & e & -> & Hpre & Hb)].
    + left. constructor; assumption.
    + right. exists (x :: pre), b, post, e. repeat split; auto.
Qed.

Lemma filterAbsent_run blks :
  forall toput h,
    let r := filterAbsent env blks toput h in
    Forall (fun c => isHasCall c = true) (snd r) /\
    match fst r with
    | inr t =>
      asked (basics (snd r)) = map BlockCid blks /\
      map BlockCid t = map BlockCid toput ++ reportedAbsent (basics (snd r)) /\
      incl t (toput ++ blks) /\
      Forall (fun c => callError c = None) (snd r)
    | inl e =>
      exists pre c has, snd r = pre ++ [Basic (CallHas c has (Some e))]
    end.
Proof.
  induction blks as [|b blks IH]; intros toput h r; subst r.
  - cbn. rewrite !app_nil_r. repeat split; auto. apply incl_refl.
  - cbn [filterAbsent]. rewrite bindW_call.
    destruct (many_Has env h (BlockCid b)) as [has [e|]] eqn:Hhas;
      cbn [fst snd].
    + split; [repeat constructor | ].
      exists [], (BlockCid b), has. reflexivity.
    + destruct has; cbn [negb].
      * specialize (IH toput (h ++ [Basic (CallHas (BlockCid b) true None)])).
        cbn zeta in IH. destruct IH as (Hc & IH).
        split; [constructor; [reflexivity | exact Hc] | ].
        destruct (fst (filterAbsent env blks toput _)) as [e|t].
        -- destruct IH as (pre & c & has & ->).
           exists (Basic (CallHas (BlockCid b) true None) :: pre), c, has.
           reflexivity.
        -- destruct IH as (Ha & Hm & Hi & He).
           unfold asked, reportedAbsent, basics in *. cbn.
           rewrite Ha, Hm. repeat split; auto.
           intros x Hx. specialize (Hi x Hx). apply in_app_or in Hi.
           apply in_or_app. destruct Hi; [left | right; right]; assumption.
      * specialize (IH (toput ++ [b])
                      (h ++ [Basic (CallHas (BlockCid b) false None)])).
        cbn zeta in IH. destruct IH as (Hc & IH).
        split; [constructor; [reflexivity | exact Hc] | ].
        destruct (fst (filterAbsent env blks (toput ++ [b]) _)) as [e|t].
        -- destruct IH as (pre & c & has & ->).
           exists (Basic (CallHas (BlockCid b) false None) :: pre), c, has.
           reflexivity.
        -- destruct IH as (Ha & Hm & Hi & He).
           unfold asked, reportedAbsent, basics in *. cbn.
           rewrite Ha, Hm, map_app, <- app_assoc. repeat split; auto.
           intros x Hx. specialize (Hi x Hx). rewrite <- app_assoc in Hi.
           exact Hi.
Qed.

Lemma provideAll_run toput :
  forall h,
    let r := provideAll env toput h in
    Forall (fun c => isAnnounceCall c = true) (snd r) /\
    advertised (basics (snd r)) = map BlockCid toput /\
    notifications (basics (snd r)) = [].
Proof.
  induction toput as [|o toput IH]; intros h r; subst r.
  - cbn. repeat split; auto.
  - cbn [provideAll]. rewrite bindW_call.
    specialize (IH (h ++ [Basic (CallProvide (BlockCid o)
                                   (many_Provide env h (BlockCid o)))])).
    cbn zeta in IH. destruct IH as (Hc & Ha & Hn).
    cbn [fst snd]. unfold advertised, notifications, basics in *. cbn.
    rewrite Ha, Hn. repeat split; auto.
Qed.

(** What [AddBlocks] does once it knows which blocks to write. *)
Lemma putAndAnnounce_run s toput h :
  let r := putAndAnnounce env s toput h in
  (toput = [] /\ r = (None, [])) \/
  (toput <> [] /\
   exists perr ae,
     snd r = CallPutMany toput perr :: ae /\
     fst r = perr /\
     Forall (fun c => isAnnounceCall c = true) ae /\
     notifications (basics ae)
     = match perr, exchange s with
       | None, Some _ => [toput]
       | _, _ => []
       end /\
     advertised (basics ae)
     = match perr, provider s with
       | None, Some _ => map BlockCid toput
       | _, _ => []
       end).
Proof.
  intros r. subst r. destruct toput as [|o toput]; [left; auto | right].
  split; [discriminate | ].
  cbn [putAndAnnounce]. rewrite bindW_call.
  destruct (many_PutMany env h (o :: toput)) as [e|] eqn:Hput.
  { exists (Some e), []. cbn. repeat split; auto. }
  exists None.
  rewrite !bindW_run.
  destruct (exchange s) as [x|]; destruct (provider s) as [p|].
  - rewrite bindW_call. cbn [retW fst snd].
    match goal with
    | |- context [provideAll env ?t ?hh] =>
      destruct (provideAll_run t hh) as (Hc & Ha & Hn);
      destruct (provideAll env t hh) as [u pe]
    end.
    cbn [fst snd] in *. eexists. split; [reflexivity | ].
    rewrite app_nil_r. unfold notifications, advertised, basics in *.
    cbn. rewrite Ha, Hn.
    repeat split; auto.
  - rewrite bindW_call. cbn [retW fst snd].
    eexists. split; [reflexivity | ]. cbn. repeat split; auto.
  - cbn [retW fst snd].
    match goal with
    | |- context [provideAll env ?t ?hh] =>
      destruct (provideAll_run t hh) as (Hc & Ha & Hn);
      destruct (provideAll env t hh) as [u pe]
    end.
    cbn [fst snd] in *. eexists. split; [reflexivity | ].
    cbn [app]. rewrite app_nil_r. repeat split; auto.
  - cbn [retW fst snd]. eexists. split; [reflexivity | ].
    cbn. repeat split; auto.
Qed.

(** The log of [AddBlocks]: validations, then [Has] calls, then the write
    and its announcements. *)
Lemma AddBlocks_shape s blks h :
  let r := AddBlocks env s blks h in
  exists ve he we,
    snd r = ve ++ he ++ we /\
    Forall (fun c => isValidateCall c = true) ve /\
    Forall (fun c => isHasCall c = true) he /\
    ((exists e pre c,
         fst r = Some e /\
         ve = pre ++ [Basic (CallValidateCid c (Some e))] /\
         he = [] /\ we = [])
     \/
     (exists e pre c has,
         fst r = Some e /\
         he = pre ++ [Basic (CallHas c has (Some e))] /\ we = [])
     \/
     (exists toput,
         (if checkFirst s
          then asked (basics he) = map BlockCid blks /\
               map BlockCid toput = reportedAbsent (basics he)
          else he = [] /\ toput = blks) /\
         incl toput blks /\
         ((toput = [] /\ we = [] /\ fst r = None)
          \/
          (toput <> [] /\
           exists perr ae,
             we = CallPutMany toput perr :: ae /\
             fst r = perr /\
             Forall (fun c => isAnnounceCall c = true) ae /\
             notifications (basics ae)
             = match perr, exchange s with
               | None, Some _ => [toput]
               | _, _ => []
               end /\
             advertised (basics ae)
             = match perr, provider s with
               | None, Some _ => map BlockCid toput
               | _, _ => []
               end)))).
Proof.
  intros r. subst r. unfold AddBlocks. rewrite bindW_run.
  assert (Hcl : forall l,
             Forall (fun c => isValidateCall c = true)
               (map Basic (logValidate (allowlist s) l))).
  { intros l. unfold logValidate. rewrite map_map.
    apply Forall_map, Forall_forall. reflexivity. }
  destruct (first_rejected (allowlist s) blks)
    as [Hall | (pre & b & post & e & -> & Hpre & Hb)].
  2:{ rewrite (validateAll_rejects (allowlist s) pre b post e Hpre Hb).
      cbn [fst snd retW].
      exists (map Basic (logValidate (allowlist s) (map BlockCid (pre ++ [b])))),
        [], [].
      rewrite !app_nil_r. repeat split; auto. left.
      exists e, (map Basic (logValidate (allowlist s) (map BlockCid pre))),
        (BlockCid b).
      repeat split; auto.
      unfold logValidate. rewrite !map_app. cbn. rewrite Hb. reflexivity. }
  rewrite (validateAll_accepts (allowlist s) blks Hall). cbn [fst snd].
  exists (map Basic (logValidate (allowlist s) (map BlockCid blks))).
  rewrite bindW_run.
  destruct (checkFirst s).
  - match goal with
    | |- context [filterAbsent env blks [] ?hh] =>
      destruct (filterAbsent_run blks [] hh) as (Hc & Hf);
      destruct (filterAbsent env blks [] hh) as [[e|toput] he]
    end; cbn [fst snd] in *.
    + destruct Hf as (pre & c & has & ->).
      exists (pre ++ [Basic (CallHas c has (Some e))]), [].
      rewrite !app_nil_r. repeat split; auto. right. left.
      exists e, pre, c, has. auto.
    + destruct Hf as (Ha & Hm & Hi & He). cbn [map app] in Hm, Hi.
      match goal with
      | |- context [putAndAnnounce env s toput ?hh] =>
        pose proof (putAndAnnounce_run s toput hh) as Hw;
        destruct (putAndAnnounce env s toput hh) as [res we]
      end.
      cbn zeta in Hw. cbn [fst snd] in *.
      exists he, we. repeat split; auto. right. right.
      exists toput. repeat split; auto.
      destruct Hw as [(-> & Hw) | (Hne & Hw)]; [left | right; auto].
      injection Hw as -> ->. auto.
  - cbn [retW fst snd].
    match goal with
    | |- context [putAndAnnounce env s blks ?hh] =>
      pose proof (putAndAnnounce_run s blks hh) as Hw;
      destruct (putAndAnnounce env s blks hh) as [res we]
    end.
    cbn zeta in Hw. cbn [fst snd] in *.
    exists [], we. cbn [app]. repeat split; auto. right. right.
    exists blks. repeat split; auto; try apply incl_refl.
    destruct Hw as [(-> & Hw) | (Hne & Hw)]; [left | right; auto].
    injection Hw as -> ->. auto.
Qed.

Lemma basics_nil {B} (f : Event -> list B) l :
  (forall c, In c l ->
             match c with Basic e => f e = [] | CallPutMany _ _ => True end) ->
  flat_map f (basics l) = [].
Proof.
  induction l as [|c l IH]; intros H; [reflexivity | ].
  unfold basics in *. cbn [flat_map]. rewrite flat_map_app, IH.
  - pose proof (H c (or_introl eq_refl)) as Hc.
    destruct c as [e|]; cbn; [rewrite Hc | ]; reflexivity.
  - intros x Hx. apply H. right. exact Hx.
Qed.

(* The same for a projection that reads the calls shared with the other
   operations. *)
Ltac basics_nil H :=
  apply basics_nil;
  let x := fresh "x" in
  let Hx := fresh "Hx" in
  intros x Hx; rewrite Forall_forall in H; specialize (H x Hx);
  destruct x as [[]|]; try discriminate H; try exact I; try reflexivity;
  repeat match goal with
         | |- context [match ?y with _ => _ end] => destruct y
         end;
  try discriminate H; reflexivity.

Lemma batch_log ve he :
  Forall (fun c => isValidateCall c = true) ve ->
  Forall (fun c => isHasCall c = true) he ->
  putManys (ve ++ he) = [] /\
  asked (basics (ve ++ he)) = asked (basics he) /\
  reportedAbsent (basics (ve ++ he)) = reportedAbsent (basics he) /\
  notifications (basics (ve ++ he)) = [] /\
  advertised (basics (ve ++ he)) = [].
Proof.
  intros Hve Hhe.
  assert (putManys ve = []) as A1 by (clear Hhe; calls_nil Hve).
  assert (putManys he = []) as A2 by (clear Hve; calls_nil Hhe).
  assert (asked (basics ve) = []) as A3 by (clear Hhe; basics_nil Hve).
  assert (reportedAbsent (basics ve) = []) as A4
      by (clear Hhe; basics_nil Hve).
  assert (notifications (basics ve) = []) as A5
      by (clear Hhe; basics_nil Hve).
  assert (advertised (basics ve) = []) as A6 by (clear Hhe; basics_nil Hve).
  assert (notifications (basics he) = []) as A7
      by (clear Hve; basics_nil Hhe).
  assert (advertised (basics he) = []) as A8 by (clear Hve; basics_nil Hhe).
  rewrite basics_app. unfold putManys, asked, reportedAbsent, notifications,
    advertised in *.
  rewrite !flat_map_app, A1, A2, A3, A4, A5, A6, A7, A8.
  repeat split; reflexivity.
Qed.

Lemma announce_log ae :
  Forall (fun c => isAnnounceCall c = true) ae ->
  putManys ae = [] /\ asked (basics ae) = [] /\
  reportedAbsent (basics ae) = [].
Proof.
  intros Hae.
  assert (putManys ae = []) as A1 by calls_nil Hae.
  assert (asked (basics ae) = []) as A2 by basics_nil Hae.
  assert (reportedAbsent (basics ae) = []) as A3 by basics_nil Hae.
  auto.
Qed.

Lemma no_announcement ae :
  Forall (fun c => isAnnounceCall c = true) ae ->
  notifications (basics ae) = [] ->
  advertised (basics ae) = [] ->
  ae = [].
Proof.
  destruct ae as [|c ae]; [reflexivity | ].
  intros Hc Hn Ha. inversion Hc as [|? ? Hx _]; subst.
  destruct c as [[]|]; try discriminate Hx; discriminate.
Qed.

(** The three ways [AddBlocks] ends. *)
Lemma AddBlocks_log s blks h :
  let r := AddBlocks env s blks h in
  let evs := basics (snd r) in
  (exists e pre c,
      fst r = Some e /\ snd r = pre ++ [c] /\ callError c = Some e /\
      isAnnounceCall c = false /\
      (forall t p, In (CallPutMany t p) (snd r) -> p = Some e) /\
      notifications evs = [] /\ advertised evs = [])
  \/
  (fst r = None /\ putManys (snd r) = [] /\
   notifications evs = [] /\ advertised evs = [] /\
   if checkFirst s
   then asked evs = map BlockCid blks /\ reportedAbsent evs = []
   else asked evs = [] /\ blks = [])
  \/
  (exists toput,
      fst r = None /\ toput <> [] /\
      (forall t p, In (CallPutMany t p) (snd r) -> t = toput /\ p = None) /\
      putManys (snd r) = [toput] /\ incl toput blks /\
      (if checkFirst s
       then asked evs = map BlockCid blks /\
            map BlockCid toput = reportedAbsent evs
       else asked evs = [] /\ toput = blks) /\
      notifications evs
      = match exchange s with Some _ => [toput] | None => [] end /\
      advertised evs
      = match provider s with
        | Some _ => map BlockCid toput
        | None => []
        end).
Proof.
  intros r evs. subst evs.
  destruct (AddBlocks_shape s blks h)
    as (ve & he & we & Hev & Hve & Hhe & Hcases).
  fold r in Hev, Hcases. rewrite Hev.
  destruct (batch_log ve he Hve Hhe) as (Hpm & Hak & Hra & Hno & Had).
  assert (Hfront : forall t p, ~ In (CallPutMany t p) (ve ++ he)).
  { intros t p Hin. apply in_app_or in Hin. destruct Hin as [Hin | Hin].
    - rewrite Forall_forall in Hve. specialize (Hve _ Hin). discriminate.
    - rewrite Forall_forall in Hhe. specialize (Hhe _ Hin). discriminate. }
  destruct Hcases as [(e & pre & c & Hr & -> & -> & ->)
                     | [(e & pre & c & has & Hr & -> & ->)
                       | (toput & Hsel & Hincl & Hw)]].
  - left. exists e, pre, (Basic (CallValidateCid c (Some e))).
    rewrite !app_nil_r in *. repeat split; auto.
    + intros t p Hin. destruct (Hfront t p). exact Hin.
  - left. exists e, (ve ++ pre), (Basic (CallHas c has (Some e))).
    rewrite !app_nil_r in *. repeat split; auto.
    + rewrite app_assoc. reflexivity.
    + intros t p Hin. destruct (Hfront t p). exact Hin.
  - destruct Hw as [(-> & -> & Hr) | (Hne & perr & ae & -> & Hr & Hae & Hn & Ha)].
    + right. left. rewrite !app_nil_r. repeat split; auto.
      destruct (checkFirst s).
      * destruct Hsel as [Hs1 Hs2]. rewrite Hak, Hra, Hs1, <- Hs2. auto.
      * destruct Hsel as [-> <-]. rewrite Hak. auto.
    + destruct (announce_log ae Hae) as (Hpa & Haa & Hrae).
      assert (Hproj :
                putManys (ve ++ he ++ CallPutMany toput perr :: ae) = [toput]
                /\ asked (basics (ve ++ he ++ CallPutMany toput perr :: ae))
                   = asked (basics he)
                /\ reportedAbsent
                     (basics (ve ++ he ++ CallPutMany toput perr :: ae))
                   = reportedAbsent (basics he)
                /\ notifications
                     (basics (ve ++ he ++ CallPutMany toput perr :: ae))
                   = notifications (basics ae)
                /\ advertised
                     (basics (ve ++ he ++ CallPutMany toput perr :: ae))
                   = advertised (basics ae)).
      { rewrite app_assoc, basics_app.
        change (basics (CallPutMany toput perr :: ae)) with (basics ae).
        unfold putManys, asked, reportedAbsent, notifications, advertised
          in *.
        rewrite (flat_map_app _ (ve ++ he)), Hpm.
        rewrite !(flat_map_app _ (basics (ve ++ he))), Hak, Hra, Hno, Had.
        cbn [flat_map app]. rewrite Hpa, Haa, Hrae, !app_nil_r. auto. }
      destruct Hproj as (P1 & P2 & P3 & P4 & P5).
      assert (Hin : forall t p,
                 In (CallPutMany t p) (ve ++ he ++ CallPutMany toput perr :: ae)
                 -> t = toput /\ p = perr).
      { intros t p Hin. rewrite app_assoc in Hin. apply in_app_or in Hin.
        destruct Hin as [Hin | [Heq | Hin]].
        - destruct (Hfront t p Hin).
        - injection Heq as -> ->. auto.
        - rewrite Forall_forall in Hae. specialize (Hae _ Hin).
          discriminate. }
      assert (Hsel' : if checkFirst s
                      then asked (basics he) = map BlockCid blks /\
                           map BlockCid toput = reportedAbsent (basics he)
                      else asked (basics he) = [] /\ toput = blks).
      { destruct (checkFirst s); [exact Hsel | ].
        destruct Hsel as [-> ->]. auto. }
      destruct perr as [e|].
      * left. assert (ae = []) as ->.
        { apply no_announcement; auto. }
        exists e, (ve ++ he), (CallPutMany toput (Some e)).
        rewrite P4, P5. repeat split; auto.
        -- rewrite app_assoc. reflexivity.
        -- intros t p Hi. destruct (Hin t p Hi). auto.
      * right. right. exists toput.
        rewrite P1, P2, P3, P4, P5, Hn, Ha. repeat split; auto.
        -- apply (Hin t p H).
        -- apply (Hin t p H).
Qed.

(** X14.  A batch with a rejected identifier is refused as a whole:
    [AddBlocks] returns the error of the first rejected block after the
    validations up to it and nothing else, so no block is looked up,
    written or announced, not even the accepted ones before it. *)
Theorem AddBlocks_refuses_a_batch_with_a_rejected_block :
  forall (s : blockService) (pre : list Block) (b : Block)
         (post : list Block) (e : Err) (h : list Call),
    Forall (fun x => valid (allowlist s) (BlockCid x) = true) pre ->
    ValidateCid (allowlist s) (BlockCid b) = Some e ->
    AddBlocks env s (pre ++ b :: post) h
    = (Some e,
       map Basic (logValidate (allowlist s) (map BlockCid (pre ++ [b])))).
Proof.
  intros s pre b post e h Hpre Hb. unfold AddBlocks.
  rewrite bindW_run, (validateAll_rejects (allowlist s) pre b post e Hpre Hb).
  cbn. rewrite app_nil_r. reflexivity.
Qed.

(** X15.  [AddBlocks] writes with one [PutMany] at most.  In
    check-before-write mode it has then asked the store about every block
    of the batch, and the blocks written are blocks of the batch whose
    identifiers are those the store reported as absent, in that order; in
    write-through mode it asks nothing and writes the batch as it is. *)
Theorem AddBlocks_writes_the_absent_blocks :
  forall (s : blockService) (blks : list Block) (h : list Call)
         (toput : list Block) (perr : option Err),
    let r := AddBlocks env s blks h in
    In (CallPutMany toput perr) (snd r) ->
    putManys (snd r) = [toput] /\
    toput <> [] /\ incl toput blks /\
    if checkFirst s
    then asked (basics (snd r)) = map BlockCid blks /\
         map BlockCid toput = reportedAbsent (basics (snd r))
    else asked (basics (snd r)) = [] /\ toput = blks.
Proof.
  intros s blks h toput perr r Hin.
  destruct (AddBlocks_shape s blks h)
    as (ve & he & we & Hev & Hve & Hhe & Hcases).
  fold r in Hev, Hcases.
  destruct (batch_log ve he Hve Hhe) as (Hpm & Hak & Hra & _).
  assert (Hfront : ~ In (CallPutMany toput perr) (ve ++ he)).
  { intros Hi. apply in_app_or in Hi. destruct Hi as [Hi | Hi].
    - rewrite Forall_forall in Hve. specialize (Hve _ Hi). discriminate.
    - rewrite Forall_forall in Hhe. specialize (Hhe _ Hi). discriminate. }
  rewrite Hev, app_assoc in Hin. apply in_app_or in Hin.
  destruct Hin as [Hin | Hin]; [contradiction | ].
  destruct Hcases as [(e & pre & c & _ & _ & _ & ->)
                     | [(e & pre & c & has & _ & _ & ->)
                       | (tp & Hsel & Hincl & Hw)]];
    try (destruct Hin).
  destruct Hw as [(_ & -> & _) | (Hne & p & ae & -> & _ & Hae & _)];
    [destruct Hin | ].
  destruct (announce_log ae Hae) as (Hpa & Haa & Hrae).
  destruct Hin as [Heq | Hin].
  2:{ rewrite Forall_forall in Hae. specialize (Hae _ Hin). discriminate. }
  injection Heq as -> ->.
  rewrite Hev, app_assoc, basics_app.
  change (basics (CallPutMany toput perr :: ae)) with (basics ae).
  unfold putManys, asked, reportedAbsent in *.
  rewrite (flat_map_app _ (ve ++ he)), Hpm.
  rewrite !(flat_map_app _ (basics (ve ++ he))), Hak, Hra.
  cbn [flat_map app]. rewrite Hpa, Haa, Hrae, !app_nil_r.
  repeat split; auto.
  destruct (checkFirst s); [exact Hsel | ].
  destruct Hsel as [-> ->]. auto.
Qed.

(** X16.  The result of [AddBlocks] after its [PutMany] is the answer of
    that call.  After an accepted write the result is success whatever the
    exchange and the provider answer: the exchange, if there is one, is
    notified once, of all the blocks written, and the provider, if there
    is one, is asked to advertise every one of them, in order.  After a
    refused write nothing is announced. *)
Theorem AddBlocks_result_is_the_answer_of_PutMany :
  forall (s : blockService) (blks : list Block) (h : list Call)
         (toput : list Block) (perr : option Err),
    let r := AddBlocks env s blks h in
    In (CallPutMany toput perr) (snd r) ->
    fst r = perr /\
    notifications (basics (snd r))
    = match perr, exchange s with
      | None, Some _ => [toput]
      | _, _ => []
      end /\
    advertised (basics (snd r))
    = match perr, provider s with
      | None, Some _ => map BlockCid toput
      | _, _ => []
      end.
Proof.
  intros s blks h toput perr r Hin. subst r.
  destruct (AddBlocks_log s blks h)
    as [(e & pre & c & Hr & _ & _ & _ & Hp & Hn & Ha)
       | [(_ & Hpm & _) | (tp & Hr & _ & Hp & _ & _ & _ & Hn & Ha)]].
  - rewrite (Hp _ _ Hin), Hr, Hn, Ha. auto.
  - exfalso.
    assert (Hi : In toput (putManys (snd (AddBlocks env s blks h)))).
    { unfold putManys. apply in_flat_map.
      exists (CallPutMany toput perr). split; [exact Hin | left; reflexivity]. }
    rewrite Hpm in Hi. destruct Hi.
  - destruct (Hp _ _ Hin) as [-> ->]. rewrite Hr, Hn, Ha. auto.
Qed.


(** X18.  When [AddBlocks] succeeds without a [PutMany], nothing is
    announced either.  In check-before-write mode the store has then been
    asked about every block and has reported none as absent; in
    write-through mode the batch was empty. *)
Theorem AddBlocks_without_write_is_silent :
  forall (s : blockService) (blks : list Block) (h : list Call),
    let r := AddBlocks env s blks h in
    fst r = None ->
    putManys (snd r) = [] ->
    notifications (basics (snd r)) = [] /\
    advertised (basics (snd r)) = [] /\
    if checkFirst s
    then asked (basics (snd r)) = map BlockCid blks /\
         reportedAbsent (basics (snd r)) = []
    else blks = [].
Proof.
  intros s blks h r Hres Hpm. subst r.
  destruct (AddBlocks_log s blks h)
    as [(e' & pre & c & Hr & _)
       | [(_ & _ & Hn & Ha & Hsel) | (tp & _ & _ & _ & Hp & _)]];
    try congruence.
  repeat split; auto.
  destruct (checkFirst s); tauto.
Qed.

End BatchProperties.

(** ** The further properties at work on the in-memory instance *)

Module DemoExtras.

Import Demo DemoMore.

(** Block 1 is in the store: [GetBlock] returns it and stops. *)
Lemma getBlock_local_witness :
  let env := memEnv [(1, 10)] [(1, 11)] in
  let sn := freshSession online in
  ValidateCid (allowlist online) 1 = None /\
  GetBlock env online 1 [] sn
  = (inr (1, 10), [CallValidateCid 1 None; CallGet 1 (inr (1, 10))], sn).
Proof.
  intros env sn. split; [reflexivity | ].
  apply (getBlock_ends_with_the_store_answer (X:=demoX) env 1
           (asBlockService online) (getExchangeFetcher online) [] sn);
    [reflexivity | ].
  intros e H. discriminate H.
Defined.

(** Block 2 comes from the exchange and is returned after its [Put]. *)
Lemma getBlock_persisted_witness :
  let env := memEnv [] [(2, 20)] in
  let r := GetBlock env online 2 [] (freshSession online) in
  value r = inr (2, 20) /\
  persisted (events r) = [(2, 20)] /\
  existsb isAnnounceFailure (events r) = false.
Proof.
  intros env r.
  assert (Hv : value r = inr (2, 20)) by reflexivity.
  split; [exact Hv | ].
  destruct (getBlock_returns_stored_or_persisted_block (X:=demoX) env 2
              (asBlockService online) (getExchangeFetcher online) []
              (freshSession online) (2, 20) Hv) as [Hin | (_ & Hp & Ha)].
  - exfalso. vm_compute in Hin.
    repeat (destruct Hin as [Hin | Hin]; [discriminate Hin | ]).
    exact Hin.
  - split; assumption.
Defined.

(** The store refuses to write the fetched block 2: [GetBlock] returns
    that error. *)
Lemma getBlock_error_witness :
  let env := brokenPut 2 (memEnv [] [(2, 20)]) in
  let r := GetBlock env online 2 [] (freshSession online) in
  value r = inl ErrIO /\
  exists pre ev,
    events r = pre ++ [ev] /\
    (errorOf ev = Some ErrIO \/
     (ev = CallFetchFactory None /\ In (CallGet 2 (inl ErrIO)) pre /\
      IsNotFound ErrIO = true)).
Proof.
  intros env r. split; [reflexivity | ].
  apply (getBlock_returns_the_error_it_met (X:=demoX) env 2
           (asBlockService online) (getExchangeFetcher online) []
           (freshSession online) ErrIO).
  reflexivity.
Defined.

(** The exchange refuses the notification about block 3: [AddBlock]
    succeeds all the same and the block is advertised. *)
Lemma AddBlock_announcements_witness :
  let env := brokenNotify 3 (memEnv [] []) in
  let r := AddBlock env providing (3, 30) [] (freshSession providing) in
  In (CallPut (3, 30) None) (events r) /\
  In (CallNotifyNewBlocks [(3, 30)] (Some ErrIO)) (events r) /\
  value r = None /\
  notifications (events r) = [[(3, 30)]] /\
  advertised (events r) = [3].
Proof.
  intros env r.
  assert (Hin : In (CallPut (3, 30) None) (events r)) by (vm_compute; tauto).
  split; [exact Hin | ]. split; [vm_compute; tauto | ].
  exact (proj2 (AddBlock_result_is_the_answer_of_Put (X:=demoX) env providing
                  (3, 30) (3, 30) None [] (freshSession providing) Hin)).
Defined.

(** Block 3 is in the store; in write-through mode it is written again. *)
Lemma AddBlock_write_through_witness :
  let env := memEnv [(3, 30)] [] in
  let r := AddBlock env writeThrough (3, 30) [] (freshSession writeThrough) in
  checkFirst writeThrough = false /\
  ValidateCid (allowlist writeThrough) 3 = None /\
  asked (events r) = [] /\
  exists perr later,
    events r = CallValidateCid 3 None :: CallPut (3, 30) perr :: later.
Proof.
  intros env r. split; [reflexivity | ]. split; [reflexivity | ].
  apply (AddBlock_write_through_always_writes (X:=demoX) env writeThrough
           (3, 30) [] (freshSession writeThrough));
    reflexivity.
Defined.


(** An offline service: block 1 is emitted, block 2 is missed and nothing
    else happens. *)
Lemma getBlocks_offline_witness :
  let env := memEnv [(1, 10)] [(2, 20)] in
  let r := GetBlocks env offline [1; 2] [] (freshSession offline) in
  (forall h',
      value (callFetchFactory (getExchangeFetcher offline) h'
               (freshSession offline)) = None) /\
  cancelled (events r) = false /\
  filter isFetchGetBlocks (events r) = [] /\
  received (events r) = [] /\
  filter isPut (events r) = [] /\
  queried (events r) = [1; 2] /\
  emitted (events r) = [(1, 10)].
Proof.
  intros env r.
  assert (Hoff : forall h',
             value (callFetchFactory (getExchangeFetcher offline) h'
                      (freshSession offline)) = None)
    by (intros h'; reflexivity).
  split; [exact Hoff | ]. split; [reflexivity | ].
  destruct (getBlocks_without_fetcher_stays_local (X:=demoX) env [1; 2]
              (asBlockService offline) (getExchangeFetcher offline) []
              (freshSession offline) Hoff) as (H1 & H2 & H3 & H4).
  split; [exact H1 | ]. split; [exact H2 | ]. split; [exact H3 | ].
  destruct (H4 eq_refl) as [Hq He]. split; [exact Hq | ].
  transitivity (hits (events r)); [exact He | reflexivity].
Defined.

(** The exchange cannot start the batched fetch for block 2. *)
Lemma getBlocks_fetch_error_witness :
  let env := brokenFetch (memEnv [(1, 10)] [(2, 20)]) in
  let r := GetBlocks env online [1; 2] [] (freshSession online) in
  let call :=
    CallFetchGetBlocks (ExchangeFetcher SessionExchange) [2] (inl ErrIO) in
  In call (events r) /\
  (exists pre, events r = pre ++ [call]) /\
  received (events r) = [] /\
  filter isPut (events r) = [] /\
  emitted (events r) = hits (events r).
Proof.
  intros env r call.
  assert (Hin : In call (events r)) by (vm_compute; tauto).
  split; [exact Hin | ].
  exact (getBlocks_ends_when_the_fetch_cannot_start (X:=demoX) env [1; 2]
           (asBlockService online) (getExchangeFetcher online) []
           (freshSession online) (ExchangeFetcher SessionExchange) [2] ErrIO
           Hin).
Defined.

(** The rejected identifier 200 reaches neither the store nor the
    exchange. *)
Lemma getBlocks_accepted_only_witness :
  let env := memEnv [(1, 10)] [(2, 20)] in
  let r := GetBlocks env online [1; 200; 2; 3] [] (freshSession online) in
  let call :=
    CallFetchGetBlocks (ExchangeFetcher SessionExchange) [2; 3]
      (inr [(2, 20)]) in
  queried (events r) = [1; 2; 3] /\
  In call (events r) /\
  [2; 3] = failedGets (events r) /\
  Forall (fun c => valid (allowlist online) c = true /\
                   In c [1; 200; 2; 3]) [2; 3].
Proof.
  intros env r call.
  assert (Hin : In call (events r)) by (vm_compute; tauto).
  split; [reflexivity | ]. split; [exact Hin | ].
  destruct (getBlocks_hands_on_accepted_identifiers_only (X:=demoX) env
              [1; 200; 2; 3] (asBlockService online)
              (getExchangeFetcher online) [] (freshSession online))
    as (_ & _ & Hm).
  exact (Hm _ _ _ Hin).
Defined.

(** Three calls on one session: the exchange's session is created by the
    first, which misses nothing, and used by the others. *)
Lemma session_witness :
  let env := memEnv [(1, 10)] [(2, 20)] in
  let calls := [SessionGetBlocks [1]; SessionGetBlock 2; SessionGetBlock 3] in
  let r := runSession env calls [] (freshSession online) in
  filter isNewSession (events r) = [CallNewSession SessionExchange (Some tt)]
  /\
  fetchers (events r)
  = [Some (SessionFetcher SessionExchange);
     Some (SessionFetcher SessionExchange);
     Some (SessionFetcher SessionExchange)] /\
  createSession (session r) = true /\
  ses (session r) = Some (SessionFetcher SessionExchange) /\
  sesctx (session r) = None.
Proof.
  intros env calls r.
  split; [reflexivity | ]. split; [reflexivity | ].
  destruct (session_is_set_up_once (X:=demoX) env calls tt
              (asBlockService online) []) as (_ & _ & _ & Hs).
  apply Hs. discriminate.
Defined.

(** Options in the order a caller may give them. *)
Lemma New_options_witness :
  let opts := [WithProvider (Some TheProvider); WriteThrough] in
  Forall ProvidedOption opts /\
  exchange (New (Some PlainExchange) opts) = Some PlainExchange /\
  checkFirst (New (Some PlainExchange) opts) = false /\
  allowlist (New (Some PlainExchange) opts) = DefaultAllowlist.
Proof.
  intros opts.
  assert (Hopts : Forall ProvidedOption opts)
    by (repeat constructor).
  split; [exact Hopts | ].
  destruct (New_applies_the_options (X:=demoX) (Some PlainExchange) opts
              Hopts) as (He & Hw & _ & Ha & _).
  split; [exact He | ]. split.
  - apply Hw. right. left. reflexivity.
  - apply Ha. intros a [H | [H | []]].
    + apply (f_equal (fun f => provider (f offline))) in H. discriminate H.
    + apply (f_equal (fun f => checkFirst (f offline))) in H. discriminate H.
Defined.

(** A batch whose second block is rejected. *)
Lemma AddBlocks_rejected_witness :
  let env := batchEnv [] nowhere nowhere false nowhere in
  Forall (fun x => valid (allowlist providing) (BlockCid x) = true)
    [(1, 10)] /\
  ValidateCid (allowlist providing) 200 = Some ErrRejected /\
  AddBlocks env providing [(1, 10); (200, 7); (3, 30)] []
  = (Some ErrRejected,
     [Basic (CallValidateCid 1 None);
      Basic (CallValidateCid 200 (Some ErrRejected))]).
Proof.
  intros env.
  assert (Hpre : Forall (fun x => valid (X:=demoX) (allowlist providing)
                                    (BlockCid x) = true) [(1, 10)])
    by (repeat constructor).
  split; [exact Hpre | ]. split; [reflexivity | ].
  exact (AddBlocks_refuses_a_batch_with_a_rejected_block (X:=demoX) env
           providing [(1, 10)] (200, 7) [(3, 30)] ErrRejected [] Hpre
           eq_refl).
Defined.

(** The store holds block 2 of a batch of three; notification and the
    first advertisement fail. *)
Lemma AddBlocks_selection_witness :
  let env := batchEnv [(2, 20)] nowhere nowhere true (fun c => c =? 1) in
  let r := AddBlocks env providing [(1, 10); (2, 20); (3, 30)] [] in
  In (CallPutMany [(1, 10); (3, 30)] None) (snd r) /\
  putManys (snd r) = [[(1, 10); (3, 30)]] /\
  asked (basics (snd r)) = [1; 2; 3] /\
  reportedAbsent (basics (snd r)) = [1; 3].
Proof.
  intros env r.
  assert (Hin : In (CallPutMany [(1, 10); (3, 30)] None) (snd r))
    by (vm_compute; tauto).
  split; [exact Hin | ].
  destruct (AddBlocks_writes_the_absent_blocks (X:=demoX) env providing
              [(1, 10); (2, 20); (3, 30)] [] [(1, 10); (3, 30)] None Hin)
    as (Hp & _ & _ & Ha & Hr).
  split; [exact Hp | ]. split; [exact Ha | ]. symmetry. exact Hr.
Defined.

Lemma AddBlocks_announcements_witness :
  let env := batchEnv [(2, 20)] nowhere nowhere true (fun c => c =? 1) in
  let r := AddBlocks env providing [(1, 10); (2, 20); (3, 30)] [] in
  In (CallPutMany [(1, 10); (3, 30)] None) (snd r) /\
  In (Basic (CallProvide 1 (Some ErrIO))) (snd r) /\
  fst r = None /\
  notifications (basics (snd r)) = [[(1, 10); (3, 30)]] /\
  advertised (basics (snd r)) = [1; 3].
Proof.
  intros env r.
  assert (Hin : In (CallPutMany [(1, 10); (3, 30)] None) (snd r))
    by (vm_compute; tauto).
  split; [exact Hin | ]. split; [vm_compute; tauto | ].
  exact (AddBlocks_result_is_the_answer_of_PutMany (X:=demoX) env providing
           [(1, 10); (2, 20); (3, 30)] [] [(1, 10); (3, 30)] None Hin).
Defined.


(** The store holds both blocks of the batch. *)
Lemma AddBlocks_silent_witness :
  let env := batchEnv [(1, 10); (2, 20)] nowhere nowhere false nowhere in
  let r := AddBlocks env providing [(1, 10); (2, 20)] [] in
  fst r = None /\
  putManys (snd r) = [] /\
  notifications (basics (snd r)) = [] /\
  advertised (basics (snd r)) = [] /\
  asked (basics (snd r)) = [1; 2] /\
  reportedAbsent (basics (snd r)) = [].
Proof.
  intros env r. split; [reflexivity | ]. split; [reflexivity | ].
  exact (AddBlocks_without_write_is_silent (X:=demoX) env providing
           [(1, 10); (2, 20)] [] eq_refl eq_refl).
Defined.

End DemoExtras.
